(** * Streaming chat decoder of the legal assistant client

    Shallow embedding of the streaming reader written twice in the
    client: [streamChat] in [src/pages/UserDashboard.tsx] and the inline
    loop of [handleSend] in [src/pages/AuthPage.tsx].

    JavaScript strings are modelled as lists of UTF-16 code units ([list Z]),
    response chunks ([Uint8Array]) as lists of bytes ([list Z], each in
    [0, 255]).  The platform pieces the loop relies on are written out after
    their standards: the WHATWG UTF-8 decoder behind [TextDecoder] in
    streaming mode, [String.prototype.trim], [JSON.parse], property access
    with optional chaining, truthiness and string concatenation with [+=]. *)

From Stdlib Require Import ZArith List String Ascii Bool Lia.
From Stdlib Require Import Relations.Relation_Operators.
Import ListNotations.
Open Scope Z_scope.

(** ** Text helpers *)

(** Code units of an ASCII Rocq string, used to write literals. *)
Definition txt (s : string) : list Z :=
  map (fun a => Z.of_nat (nat_of_ascii a)) (list_ascii_of_string s).

(** Bytes of an ASCII Rocq string (its UTF-8 encoding). *)
Definition bytes (s : string) : list Z := txt s.

Fixpoint list_eqb (a b : list Z) : bool :=
  match a, b with
  | [], [] => true
  | x :: a', y :: b' => (x =? y) && list_eqb a' b'
  | _, _ => false
  end.

(** [s.startsWith(p)] *)
Fixpoint starts_with (p s : list Z) : bool :=
  match p, s with
  | [], _ => true
  | x :: p', y :: s' => (x =? y) && starts_with p' s'
  | _ :: _, [] => false
  end.

(** [s.indexOf(c)]: [None] stands for [-1]. *)
Fixpoint index_of (c : Z) (s : list Z) : option nat :=
  match s with
  | [] => None
  | x :: s' =>
      if x =? c then Some O
      else match index_of c s' with
           | Some i => Some (S i)
           | None => None
           end
  end.

(** [s.endsWith(c)] for a one-unit string [c]. *)
Definition ends_with (c : Z) (s : list Z) : bool :=
  match rev s with
  | x :: _ => x =? c
  | [] => false
  end.

(** White space and line terminators removed by [String.prototype.trim]
    (ECMA-262 WhiteSpace and LineTerminator, with the Zs category). *)
Definition js_is_space (c : Z) : bool :=
  existsb (Z.eqb c)
    [9; 10; 11; 12; 13; 32; 160; 5760; 8192; 8193; 8194; 8195; 8196; 8197;
     8198; 8199; 8200; 8201; 8202; 8232; 8233; 8239; 8287; 12288; 65279].

Fixpoint drop_space (s : list Z) : list Z :=
  match s with
  | c :: s' => if js_is_space c then drop_space s' else s
  | [] => []
  end.

(** [s.trim()] *)
Definition js_trim (s : list Z) : list Z :=
  rev (drop_space (rev (drop_space s))).

Definition NL : Z := 10.
Definition CR : Z := 13.
Definition data_prefix : list Z := txt "data: ".
Definition done_sentinel : list Z := txt "[DONE]".

(** ** [TextDecoder] in streaming mode

    The WHATWG UTF-8 decoder, one byte at a time, with error mode
    "replacement" (an invalid sequence yields U+FFFD) and the BOM handling of
    [TextDecoder] (a leading U+FEFF is dropped).  [decode(value, {stream:
    true})] keeps this state between calls and never flushes. *)

Record utf8_state := mk_utf8 {
  u_code_point : Z;
  u_bytes_seen : Z;
  u_bytes_needed : Z;
  u_lower : Z;
  u_upper : Z
}.

Definition utf8_init : utf8_state := mk_utf8 0 0 0 128 191.

Record decoder := mk_decoder {
  d_utf8 : utf8_state;
  d_bom_seen : bool
}.

Definition decoder_init : decoder := mk_decoder utf8_init false.

Definition REPLACEMENT : Z := 65533.

(** A byte read while no continuation byte is expected. *)
Definition utf8_lead (b : Z) : utf8_state * list Z :=
  if (0 <=? b) && (b <=? 127) then (utf8_init, [b])
  else if (194 <=? b) && (b <=? 223) then
    (mk_utf8 (Z.land b 31) 0 1 128 191, [])
  else if (224 <=? b) && (b <=? 239) then
    (mk_utf8 (Z.land b 15) 0 2 (if b =? 224 then 160 else 128)
                              (if b =? 237 then 159 else 191), [])
  else if (240 <=? b) && (b <=? 244) then
    (mk_utf8 (Z.land b 7) 0 3 (if b =? 240 then 144 else 128)
                             (if b =? 244 then 143 else 191), [])
  else (utf8_init, [REPLACEMENT]).

(** The UTF-8 decoder's handler; on an unexpected byte the byte is
    prepended to the input again, i.e. read once more from the initial
    state. *)
Definition utf8_byte (s : utf8_state) (b : Z) : utf8_state * list Z :=
  if u_bytes_needed s =? 0 then utf8_lead b
  else if negb ((u_lower s <=? b) && (b <=? u_upper s)) then
    let '(s', out) := utf8_lead b in (s', REPLACEMENT :: out)
  else
    let cp := Z.lor (Z.shiftl (u_code_point s) 6) (Z.land b 63) in
    let seen := u_bytes_seen s + 1 in
    if seen =? u_bytes_needed s then (utf8_init, [cp])
    else (mk_utf8 cp seen (u_bytes_needed s) 128 191, []).

(** A code point as UTF-16 code units. *)
Definition utf16_units (cp : Z) : list Z :=
  if cp <? 65536 then [cp]
  else [55296 + Z.shiftr (cp - 65536) 10; 56320 + Z.land (cp - 65536) 1023].

(** Serialization of the decoder's output: the first code point is dropped
    when it is U+FEFF. *)
Fixpoint serialize (bom : bool) (cps : list Z) : bool * list Z :=
  match cps with
  | [] => (bom, [])
  | cp :: cps' =>
      let '(bom', out) := serialize true cps' in
      if negb bom && (cp =? 65279) then (bom', out)
      else (bom', utf16_units cp ++ out)
  end.

Definition decode_byte (d : decoder) (b : Z) : decoder * list Z :=
  let '(u, cps) := utf8_byte (d_utf8 d) b in
  let '(bom, out) := serialize (d_bom_seen d) cps in
  (mk_decoder u bom, out).

(** [decoder.decode(value, { stream: true })] *)
Fixpoint decode_stream (d : decoder) (value : list Z) : decoder * list Z :=
  match value with
  | [] => (d, [])
  | b :: value' =>
      let '(d1, t1) := decode_byte d b in
      let '(d2, t2) := decode_stream d1 value' in
      (d2, t1 ++ t2)
  end.

(** ** [JSON.parse] *)

(** A JSON number keeps its lexeme: converting it to an IEEE double, and
    back to a string, is left to [NumberSemantics] below. *)
#[local] Set Warnings "-register-all".
Inductive jvalue :=
| JNull
| JBool (b : bool)
| JNum (lexeme : list Z)
| JStr (s : list Z)
| JArr (xs : list jvalue)
| JObj (members : list (list Z * jvalue)).

(** JSON white space: tab, line feed, carriage return, space. *)
Definition json_ws (c : Z) : bool :=
  (c =? 9) || (c =? 10) || (c =? 13) || (c =? 32).

Fixpoint skip_ws (s : list Z) : list Z :=
  match s with
  | c :: s' => if json_ws c then skip_ws s' else s
  | [] => []
  end.

Definition is_digit (c : Z) : bool := (48 <=? c) && (c <=? 57).

Definition hex_value (c : Z) : option Z :=
  if is_digit c then Some (c - 48)
  else if (65 <=? c) && (c <=? 70) then Some (c - 55)
  else if (97 <=? c) && (c <=? 102) then Some (c - 87)
  else None.

(** The body of a JSON string after its opening quote; [acc] holds the
    code units read so far, reversed. *)
Fixpoint parse_string (s acc : list Z) : option (list Z * list Z) :=
  match s with
  | [] => None
  | c :: s' =>
      if c =? 34 then Some (rev acc, s')
      else if c =? 92 then
        match s' with
        | e :: s'' =>
            if e =? 117 then
              match s'' with
              | h1 :: h2 :: h3 :: h4 :: s3 =>
                  match hex_value h1, hex_value h2, hex_value h3, hex_value h4 with
                  | Some a, Some b, Some c', Some d =>
                      parse_string s3 ((((a * 16 + b) * 16 + c') * 16 + d) :: acc)
                  | _, _, _, _ => None
                  end
              | _ => None
              end
            else
              let esc :=
                if e =? 34 then Some 34 else if e =? 92 then Some 92
                else if e =? 47 then Some 47 else if e =? 98 then Some 8
                else if e =? 102 then Some 12 else if e =? 110 then Some 10
                else if e =? 114 then Some 13 else if e =? 116 then Some 9
                else None in
              match esc with
              | Some u => parse_string s'' (u :: acc)
              | None => None
              end
        | [] => None
        end
      else if c <? 32 then None
      else parse_string s' (c :: acc)
  end.

(** A run of digits, returned in order, and the rest. *)
Fixpoint digits (s : list Z) : list Z * list Z :=
  match s with
  | c :: s' =>
      if is_digit c then let '(ds, r) := digits s' in (c :: ds, r) else ([], s)
  | [] => ([], [])
  end.

(** [-? (0 | [1-9][0-9]* ) (. [0-9]+)? ([eE] [+-]? [0-9]+)?] *)
Definition parse_number (s : list Z) : option (list Z * list Z) :=
  let '(sign, s1) := match s with
                     | c :: s' => if c =? 45 then ([c], s') else ([], s)
                     | [] => ([], s)
                     end in
  let int_part :=
    match s1 with
    | c :: s' =>
        if c =? 48 then Some ([c], s')
        else if is_digit c then let '(ds, r) := digits s' in Some (c :: ds, r)
        else None
    | [] => None
    end in
  match int_part with
  | None => None
  | Some (ip, s2) =>
      let frac :=
        match s2 with
        | c :: s' =>
            if c =? 46 then
              match digits s' with
              | ([], _) => None
              | (ds, r) => Some (c :: ds, r)
              end
            else Some ([], s2)
        | [] => Some ([], s2)
        end in
      match frac with
      | None => None
      | Some (fp, s3) =>
          let exp :=
            match s3 with
            | c :: s' =>
                if (c =? 101) || (c =? 69) then
                  let '(sg, s'') := match s' with
                                    | d :: r => if (d =? 43) || (d =? 45)
                                                then ([d], r) else ([], s')
                                    | [] => ([], s')
                                    end in
                  match digits s'' with
                  | ([], _) => None
                  | (ds, r) => Some (c :: sg ++ ds, r)
                  end
                else Some ([], s3)
            | [] => Some ([], s3)
            end in
          match exp with
          | None => None
          | Some (ep, s4) => Some (sign ++ ip ++ fp ++ ep, s4)
          end
      end
  end.

(** Values, array elements and object members.  [fuel] bounds the depth of
    the calls; each nested call reads at least one code unit first, so the
    input length plus one is enough. *)
Fixpoint parse_value (fuel : nat) (s : list Z) : option (jvalue * list Z) :=
  match fuel with
  | O => None
  | S f =>
      match s with
      | c :: s' =>
          if c =? 123 then
            match skip_ws s' with
            | d :: r => if d =? 125 then Some (JObj [], r)
                        else parse_members f (d :: r) []
            | [] => None
            end
          else if c =? 91 then
            match skip_ws s' with
            | d :: r => if d =? 93 then Some (JArr [], r)
                        else parse_elements f (d :: r) []
            | [] => None
            end
          else if c =? 34 then
            match parse_string s' [] with
            | Some (str, r) => Some (JStr str, r)
            | None => None
            end
          else if starts_with (txt "true") s then Some (JBool true, skipn 4 s)
          else if starts_with (txt "false") s then Some (JBool false, skipn 5 s)
          else if starts_with (txt "null") s then Some (JNull, skipn 4 s)
          else match parse_number s with
               | Some (lex, r) => Some (JNum lex, r)
               | None => None
               end
      | [] => None
      end
  end
(** Elements of an array, [acc] reversed; [s] starts at an element. *)
with parse_elements (fuel : nat) (s : list Z) (acc : list jvalue)
  : option (jvalue * list Z) :=
  match fuel with
  | O => None
  | S f =>
      match parse_value f s with
      | Some (v, r) =>
          match skip_ws r with
          | c :: r' =>
              if c =? 44 then parse_elements f (skip_ws r') (v :: acc)
              else if c =? 93 then Some (JArr (rev (v :: acc)), r')
              else None
          | [] => None
          end
      | None => None
      end
  end
(** Members of an object, [acc] reversed; [s] starts at a key. *)
with parse_members (fuel : nat) (s : list Z) (acc : list (list Z * jvalue))
  : option (jvalue * list Z) :=
  match fuel with
  | O => None
  | S f =>
      match s with
      | c :: s' =>
          if c =? 34 then
            match parse_string s' [] with
            | Some (k, r) =>
                match skip_ws r with
                | d :: r' =>
                    if d =? 58 then
                      match parse_value f (skip_ws r') with
                      | Some (v, r2) =>
                          match skip_ws r2 with
                          | e :: r3 =>
                              if e =? 44 then parse_members f (skip_ws r3) ((k, v) :: acc)
                              else if e =? 125 then Some (JObj (rev ((k, v) :: acc)), r3)
                              else None
                          | [] => None
                          end
                      | None => None
                      end
                    else None
                | [] => None
                end
            | None => None
            end
          else None
      | [] => None
      end
  end.

(** [JSON.parse(text)]: [None] when it throws a [SyntaxError]. *)
Definition json_parse (text : list Z) : option jvalue :=
  match parse_value (S (List.length text)) (skip_ws text) with
  | Some (v, r) => match skip_ws r with [] => Some v | _ => None end
  | None => None
  end.


(** ** JavaScript values *)

(** IEEE-754 doubles are not modelled: a number lexeme is interpreted
    through these two operations (whether the double it denotes is [+0] or
    [-0], and [Number::toString] of that double). *)
Class NumberSemantics := {
  num_is_zero : list Z -> bool;
  num_to_string : list Z -> list Z
}.

(** A JavaScript value reached by the property accesses: [undefined] or a
    value produced by [JSON.parse]. *)
Inductive jsval :=
| Undefined
| Val (v : jvalue).

(** [JSON.parse] keeps the last of duplicate keys. *)
Fixpoint own_property (members : list (list Z * jvalue)) (k : list Z) : jsval :=
  match members with
  | [] => Undefined
  | (k', v) :: ms =>
      match own_property ms k with
      | Undefined => if list_eqb k k' then Val v else Undefined
      | found => found
      end
  end.

(** [v.name] on a non-null value, for a [name] that is neither an array
    index nor [length] and is not a property of [Object.prototype],
    [Array.prototype], [String.prototype], [Number.prototype] or
    [Boolean.prototype] ([choices], [delta], [content]). *)
Definition get_named (v : jvalue) (name : list Z) : jsval :=
  match v with
  | JObj ms => own_property ms name
  | _ => Undefined
  end.

(** [v[0]] on a non-null value. *)
Definition get_index0 (v : jvalue) : jsval :=
  match v with
  | JArr (x :: _) => Val x
  | JStr (c :: _) => Val (JStr [c])
  | JObj ms => own_property ms (txt "0")
  | _ => Undefined
  end.

(** Optional chaining [x?.p]: [undefined] when [x] is [null] or
    [undefined]. *)
Definition opt_chain (x : jsval) (f : jvalue -> jsval) : jsval :=
  match x with
  | Undefined | Val JNull => Undefined
  | Val v => f v
  end.

(** [parsed.choices?.[0]?.delta?.content]; [None] when it throws (reading
    [choices] of [null] is a [TypeError]). *)
Definition delta_of (parsed : jvalue) : option jsval :=
  match parsed with
  | JNull => None
  | _ =>
      let choices := get_named parsed (txt "choices") in
      let first := opt_chain choices get_index0 in
      let delta := opt_chain first (fun v => get_named v (txt "delta")) in
      Some (opt_chain delta (fun v => get_named v (txt "content")))
  end.

Section JsValues.
Context {NS : NumberSemantics}.

(** [if (delta)] *)
Definition truthy (x : jsval) : bool :=
  match x with
  | Undefined => false
  | Val JNull => false
  | Val (JBool b) => b
  | Val (JNum lex) => negb (num_is_zero lex)
  | Val (JStr s) => negb (list_eqb s [])
  | Val (JArr _) | Val (JObj _) => true
  end.

Fixpoint has_key (members : list (list Z * jvalue)) (k : list Z) : bool :=
  match members with
  | [] => false
  | (k', _) :: ms => list_eqb k k' || has_key ms k
  end.

Fixpoint join_comma (parts : list (list Z)) : list Z :=
  match parts with
  | [] => []
  | [p] => p
  | p :: ps => p ++ [44] ++ join_comma ps
  end.

(** The string [assistantContent += v] appends, after [ToPrimitive]:
    [None] when it throws.  An object whose own [toString] member is not
    callable throws a [TypeError]; otherwise it is ["[object Object]"].  An
    array is joined with commas, [null] elements giving the empty string. *)
Fixpoint js_to_string (v : jvalue) : option (list Z) :=
  match v with
  | JNull => Some (txt "null")
  | JBool true => Some (txt "true")
  | JBool false => Some (txt "false")
  | JNum lex => Some (num_to_string lex)
  | JStr s => Some s
  | JObj ms => if has_key ms (txt "toString") then None
               else Some (txt "[object Object]")
  | JArr xs =>
      let fix parts (xs : list jvalue) : option (list (list Z)) :=
        match xs with
        | [] => Some []
        | JNull :: xs' =>
            match parts xs' with Some ps => Some ([] :: ps) | None => None end
        | x :: xs' =>
            match js_to_string x, parts xs' with
            | Some p, Some ps => Some (p :: ps)
            | _, _ => None
            end
        end in
      match parts xs with Some ps => Some (join_comma ps) | None => None end
  end.

(** The [try] block of the loop on [jsonStr]: [None] when it throws
    (parse error, [TypeError]), [Some None] when [delta] is falsy,
    [Some (Some frag)] when [frag] is appended to [assistantContent]. *)
Definition fragment_of (jsonStr : list Z) : option (option (list Z)) :=
  match json_parse jsonStr with
  | None => None
  | Some parsed =>
      match delta_of parsed with
      | None => None
      | Some delta =>
          if truthy delta then
            match delta with
            | Val v => match js_to_string v with
                       | Some frag => Some (Some frag)
                       | None => None
                       end
            | Undefined => Some None
            end
          else Some None
      end
  end.

End JsValues.

(** ** [streamChat] ([UserDashboard.tsx]) *)

Section StreamChat.
Context {NS : NumberSemantics}.

(** The local variables of the loop: [buffer], [assistantContent], and the
    arguments [onDelta] has been called with so far, in call order. *)
Record loop_state := mk_loop {
  buffer : list Z;
  assistantContent : list Z;
  deltas : list (list Z)
}.

(** How the inner [while] loop was left. *)
Inductive exit := NoNewline | SawDone | ParseFailed.

(** The inner loop
    [while ((idx = buffer.indexOf("\n")) !== -1) { ... }].  Every
    iteration removes at least the newline from [buffer], so a fuel of
    [length buffer + 1] never runs out ([drain_all]). *)
Fixpoint drain (fuel : nat) (st : loop_state) : loop_state * exit :=
  match fuel with
  | O => (st, NoNewline)
  | S f =>
      match index_of NL (buffer st) with
      | None => (st, NoNewline)
      | Some idx =>
          let line0 := firstn idx (buffer st) in
          let buf := skipn (S idx) (buffer st) in
          let line := if ends_with CR line0
                      then firstn (List.length line0 - 1)%nat line0 else line0 in
          if negb (starts_with data_prefix line)
          then drain f (mk_loop buf (assistantContent st) (deltas st))
          else
            let jsonStr := js_trim (skipn 6 line) in
            if list_eqb jsonStr done_sentinel
            then (mk_loop buf (assistantContent st) (deltas st), SawDone)
            else
              match fragment_of jsonStr with
              | None =>
                  (mk_loop (line ++ [NL] ++ buf) (assistantContent st) (deltas st),
                   ParseFailed)
              | Some None => drain f (mk_loop buf (assistantContent st) (deltas st))
              | Some (Some frag) =>
                  let content := assistantContent st ++ frag in
                  drain f (mk_loop buf content (deltas st ++ [content]))
              end
      end
  end.

Definition drain_all (st : loop_state) : loop_state * exit :=
  drain (S (List.length (buffer st))) st.

(** The outer loop: one [reader.read()] per chunk, until [done]. *)
Fixpoint read_loop (chunks : list (list Z)) (d : decoder) (st : loop_state)
  : loop_state :=
  match chunks with
  | [] => st
  | value :: rest =>
      let '(d', text) := decode_stream d value in
      let '(st', _) :=
        drain_all (mk_loop (buffer st ++ text) (assistantContent st) (deltas st)) in
      read_loop rest d' st'
  end.

Definition loop_init : loop_state := mk_loop [] [] [].

(** The fetch response as seen by [streamChat]: [resp.ok] and the chunks of
    [resp.body] in reading order ([None] for a null body). *)
Record response := mk_response {
  resp_ok : bool;
  resp_body : option (list (list Z))
}.

Inductive outcome :=
| Returned (s : list Z)
| Thrown (message : list Z).

(** [streamChat]: the [onDelta] calls and the result of the promise. *)
Definition streamChat (resp : response) : list (list Z) * outcome :=
  match resp_ok resp, resp_body resp with
  | true, Some chunks =>
      let st := read_loop chunks decoder_init loop_init in
      (deltas st, Returned (assistantContent st))
  | _, _ => ([], Thrown (txt "Chat failed"))
  end.

(** The chunks read until [done], decoded and drained. *)
Definition decode_chunks (chunks : list (list Z)) : list (list Z) * list Z :=
  let st := read_loop chunks decoder_init loop_init in
  (deltas st, assistantContent st).

End StreamChat.

(** A number semantics for concrete runs: zero when every digit before the
    exponent is [0], printed as written.  It agrees with JavaScript on
    integer lexemes without leading [-0] and below [2^53]; the concrete runs
    below contain no numbers. *)
#[export] Instance lexeme_numbers : NumberSemantics := {
  num_is_zero lex :=
    forallb (fun c => negb (is_digit c) || (c =? 48))
      (fst (digits (skipn (if starts_with [45%Z] lex then 1%nat else 0%nat) lex)));
  num_to_string lex := lex
}.

Definition dq : string := String (ascii_of_nat 34) EmptyString.
Definition frag_line (s : string) : string :=
  "data: {" ++ dq ++ "choices" ++ dq ++ ":[{" ++ dq ++ "delta" ++ dq ++ ":{" ++ dq ++
  "content" ++ dq ++ ":" ++ dq ++ s ++ dq ++ "}}]}" ++ String (ascii_of_nat 10) EmptyString.
Definition done_line : string := "data: [DONE]" ++ String (ascii_of_nat 10) EmptyString.

(** The stream of the spec's example: two fragment lines and [[DONE]]. *)
Definition hello_world_stream : list Z :=
  bytes (frag_line "Hello" ++ frag_line " world" ++ done_line)%string.

Definition nl_string : string := String (ascii_of_nat 10) EmptyString.

(** ** The inline copy in [handleSend] ([AuthPage.tsx])

    The same loop, where every fragment instead triggers
    [setMessages(prev => ...)] with an updater writing [assistantContent]
    as the last assistant message.  [set_messages] records the value of
    [assistantContent] at each call. *)

Section HandleSend.
Context {NS : NumberSemantics}.

Record send_state := mk_send {
  hs_buffer : list Z;
  hs_assistantContent : list Z;
  set_messages : list (list Z)
}.

Fixpoint hs_drain (fuel : nat) (st : send_state) : send_state :=
  match fuel with
  | O => st
  | S f =>
      match index_of NL (hs_buffer st) with
      | None => st
      | Some idx =>
          let line0 := firstn idx (hs_buffer st) in
          let buf := skipn (S idx) (hs_buffer st) in
          let line := if ends_with CR line0
                      then firstn (List.length line0 - 1)%nat line0 else line0 in
          if negb (starts_with data_prefix line)
          then hs_drain f (mk_send buf (hs_assistantContent st) (set_messages st))
          else
            let jsonStr := js_trim (skipn 6 line) in
            if list_eqb jsonStr done_sentinel
            then mk_send buf (hs_assistantContent st) (set_messages st)
            else
              match fragment_of jsonStr with
              | None => mk_send (line ++ [NL] ++ buf) (hs_assistantContent st)
                                (set_messages st)
              | Some None =>
                  hs_drain f (mk_send buf (hs_assistantContent st) (set_messages st))
              | Some (Some frag) =>
                  let content := hs_assistantContent st ++ frag in
                  hs_drain f (mk_send buf content (set_messages st ++ [content]))
              end
      end
  end.

Fixpoint hs_read_loop (chunks : list (list Z)) (d : decoder) (st : send_state)
  : send_state :=
  match chunks with
  | [] => st
  | value :: rest =>
      let '(d', text) := decode_stream d value in
      let buf := hs_buffer st ++ text in
      hs_read_loop rest d'
        (hs_drain (S (List.length buf))
                  (mk_send buf (hs_assistantContent st) (set_messages st)))
  end.

(** The streaming part of [handleSend]: the values written by
    [setMessages] and the final [assistantContent]. *)
Definition handleSend_stream (chunks : list (list Z)) : list (list Z) * list Z :=
  let st := hs_read_loop chunks decoder_init (mk_send [] [] []) in
  (set_messages st, hs_assistantContent st).

End HandleSend.

(** ** Line-level view of the loop

    Names for the steps the inner loop takes on one line; they are used to
    state properties, the loop above does not call them. *)

(** [[f1; f1 ++ f2; ...; f1 ++ ... ++ fn]] *)
Fixpoint running_concat (acc : list Z) (frags : list (list Z)) : list (list Z) :=
  match frags with
  | [] => []
  | f :: fs => (acc ++ f) :: running_concat (acc ++ f) fs
  end.


Section LineView.
Context {NS : NumberSemantics}.

(** [if (line.endsWith("\r")) line = line.slice(0, -1)] *)
Definition strip_cr (line0 : list Z) : list Z :=
  if ends_with CR line0 then firstn (List.length line0 - 1)%nat line0 else line0.

(** [line.slice(6).trim()] *)
Definition payload (line0 : list Z) : list Z := js_trim (skipn 6 (strip_cr line0)).

Inductive line_kind :=
| KSkip                  (* no [data: ] prefix *)
| KDone                  (* the sentinel [[DONE]] *)
| KFail                  (* the [try] block throws *)
| KNoFragment            (* falsy [delta] *)
| KFragment (frag : list Z).

(** What the loop does with a complete line (without its newline). *)
Definition classify (line0 : list Z) : line_kind :=
  let line := strip_cr line0 in
  if negb (starts_with data_prefix line) then KSkip
  else if list_eqb (payload line0) done_sentinel then KDone
  else match fragment_of (payload line0) with
       | None => KFail
       | Some None => KNoFragment
       | Some (Some frag) => KFragment frag
       end.

Definition carries_fragment (line0 : list Z) : bool :=
  match classify line0 with KFragment _ => true | _ => false end.


(** The complete lines of a text: the pieces ended by a newline. *)
Fixpoint lines_from (cur : list Z) (t : list Z) : list (list Z) :=
  match t with
  | [] => []
  | c :: t' => if c =? NL then rev cur :: lines_from [] t' else lines_from (c :: cur) t'
  end.

Definition complete_lines (t : list Z) : list (list Z) := lines_from [] t.

(** No complete line follows the first [data: [DONE]] line. *)
Fixpoint done_is_last (ls : list (list Z)) : bool :=
  match ls with
  | [] => true
  | l :: ls' => match classify l with
                | KDone => match ls' with [] => true | _ => false end
                | _ => done_is_last ls'
                end
  end.

(** Every complete line of the text leaves [assistantContent] alone. *)
Definition no_fragment_lines (t : list Z) : bool :=
  forallb (fun l => negb (carries_fragment l)) (complete_lines t).

(** The [onDelta] arguments so far are the running concatenations of some
    fragments, and [assistantContent] is their concatenation. *)
Definition running_state (st : loop_state) : Prop :=
  exists fs, deltas st = running_concat [] fs /\ assistantContent st = List.concat fs.

(** The whole byte stream decoded at once. *)
Definition stream_text (chunks : list (list Z)) : list Z :=
  snd (decode_stream decoder_init (List.concat chunks)).

End LineView.

(** * The dashboard handlers

    A handler is modelled by the effects it performs, in order: the state
    setters with the value they write, the database writes, the chat request,
    the dialogs and the toasts.  What the back end answers (the profile read
    before the handler ran, the fetch response, the rows a query returns) is
    an input. *)

(** ** Chat messages and the [onDelta] updater *)

(** [ChatMessage]: [{ id?: string; role; content }]. *)
Record chat_message := mk_msg {
  msg_id : option (list Z);
  role : list Z;
  content : list Z
}.

Definition role_user : list Z := txt "user".
Definition role_assistant : list Z := txt "assistant".

(** [!s] on a string. *)
Definition js_empty (s : list Z) : bool :=
  match s with
  | [] => true
  | _ => false
  end.

(** A [string | null] used as a condition. *)
Definition opt_truthy (s : option (list Z)) : bool :=
  match s with
  | Some s => negb (js_empty s)
  | None => false
  end.

(** [prev[prev.length - 1]]: [undefined] for an empty list. *)
Definition last_message (prev : list chat_message) : option chat_message :=
  match prev with
  | [] => None
  | _ => nth_error prev (List.length prev - 1)
  end.

(** [xs.map((x, i) => f(x, i))], indices from [i]. *)
Fixpoint map_index {A B : Type} (f : A -> nat -> B) (i : nat) (xs : list A)
  : list B :=
  match xs with
  | [] => []
  | x :: xs' => f x i :: map_index f (S i) xs'
  end.

(** The updater every [onDelta] passes to [setMessages]:
    [prev => last?.role === "assistant"
             ? prev.map((m, i) => i === prev.length - 1 ? { ...m, content } : m)
             : [...prev, { role: "assistant", content }]]. *)
Definition upsert_assistant (c : list Z) (prev : list chat_message)
  : list chat_message :=
  match last_message prev with
  | Some last =>
      if list_eqb (role last) role_assistant
      then map_index (fun m i => if Nat.eqb i (List.length prev - 1)
                                 then mk_msg (msg_id m) (role m) c else m) 0 prev
      else prev ++ [mk_msg None role_assistant c]
  | None => prev ++ [mk_msg None role_assistant c]
  end.

(** The values the message list takes, one per [onDelta] call, starting
    from [prev]. *)
Fixpoint message_updates (vs : list (list Z)) (prev : list chat_message)
  : list (list chat_message) :=
  match vs with
  | [] => []
  | v :: vs' =>
      let next := upsert_assistant v prev in
      next :: message_updates vs' next
  end.

(** The [messages] field of the chat request:
    [allMsgs.map((m) => ({ role: m.role, content: m.content }))]. *)
Definition chat_history (ms : list chat_message) : list (list Z * list Z) :=
  map (fun m => (role m, content m)) ms.

(** ** Effects of the dashboard handlers *)

(** The two fields of [Profile] the handlers read. *)
Record profile := mk_profile {
  access_enabled : bool;
  subscription_active : bool
}.

Inductive effect :=
| RefreshProfile
| ShowSubDialog
| ShowBlockedDialog
(** [setMessages] (or [setGeneralMessages]) with the list written *)
| SetMessages (ms : list chat_message)
| SetInput (s : list Z)
(** [setIsSending] (or [setIsGeneralSending]) *)
| SetSending (b : bool)
(** [supabase.from("messages").insert({ case_id, role, content })] *)
| InsertMessage (cid : list Z) (r : list Z) (c : list Z)
(** [supabase.from("general_messages").insert({ user_id, role, content })] *)
| InsertGeneralMessage (uid : list Z) (r : list Z) (c : list Z)
(** [fetch(FUNC_URL, ...)] with [type: "chat"] and these messages *)
| ChatRequest (history : list (list Z * list Z))
(** [supabase.from("cases").update({ updated_at: ... }).eq("id", cid)] *)
| TouchCase (cid : list Z)
| LoadCases
(** [supabase.from("cases").delete().eq("id", cid)] *)
| DeleteCaseRow (cid : list Z)
(** [supabase.from("cases").update({ title }).eq("id", cid)] *)
| UpdateCaseTitle (cid : list Z) (t : list Z)
| ConsoleError
| Toast (title description : list Z).

(** [if (profile && !profile.subscription_active) { setShowSubDialog(true); return; }
     if (profile && !profile.access_enabled) { setShowBlockedDialog(true); return; }]:
    the dialog shown, [None] when the handler goes on. *)
Definition access_gate (pr : option profile) : option effect :=
  match pr with
  | Some p =>
      if negb (subscription_active p) then Some ShowSubDialog
      else if negb (access_enabled p) then Some ShowBlockedDialog
      else None
  | None => None
  end.

(** The last list written by [SetMessages] in a sequence of effects. *)
Fixpoint last_messages (es : list effect) (cur : option (list chat_message))
  : option (list chat_message) :=
  match es with
  | [] => cur
  | SetMessages ms :: es' => last_messages es' (Some ms)
  | _ :: es' => last_messages es' cur
  end.

Section Handlers.
Context {NS : NumberSemantics}.

(** [handleCaseSend] ([UserDashboard.tsx]).  [profile] is the value the
    component rendered with: [refreshProfile] does not change it within the
    call. *)
Definition handleCaseSend (profile : option profile) (input : list Z)
  (isSending : bool) (activeCase : option (list Z))
  (messages : list chat_message) (resp : response) : list effect :=
  if js_empty (js_trim input) || isSending || negb (opt_truthy activeCase) then []
  else
  let ac := match activeCase with Some a => a | None => [] end in
  RefreshProfile ::
  match access_gate profile with
  | Some dialog => [dialog]
  | None =>
      let userMsg := mk_msg None role_user (js_trim input) in
      let allMsgs := messages ++ [userMsg] in
      [SetMessages allMsgs; SetInput []; SetSending true;
       InsertMessage ac role_user (content userMsg);
       ChatRequest (chat_history allMsgs)] ++
      let '(calls, result) := streamChat resp in
      map SetMessages (message_updates calls allMsgs) ++
      match result with
      | Returned assistantContent =>
          (if js_empty assistantContent then []
           else [InsertMessage ac role_assistant assistantContent]) ++
          [TouchCase ac; LoadCases; SetSending false]
      | Thrown _ =>
          [ConsoleError; Toast (txt "Error") (txt "Failed to get AI response");
           SetSending false]
      end
  end.

(** [handleSend] ([AuthPage.tsx]), with the loop inlined.  Its updater
    reads [assistantContent] when React runs it; it is taken here at the
    time of the call. *)
Definition handleSend (profile : option profile) (input : list Z)
  (isSending : bool) (activeCase : option (list Z))
  (messages : list chat_message) (resp : response) : list effect :=
  if js_empty (js_trim input) || isSending || negb (opt_truthy activeCase) then []
  else
  let ac := match activeCase with Some a => a | None => [] end in
  RefreshProfile ::
  match access_gate profile with
  | Some dialog => [dialog]
  | None =>
      let userMsg := mk_msg None role_user (js_trim input) in
      let allMsgs := messages ++ [userMsg] in
      [SetMessages allMsgs; SetInput []; SetSending true;
       InsertMessage ac role_user (content userMsg);
       ChatRequest (chat_history allMsgs)] ++
      match resp_ok resp, resp_body resp with
      | true, Some chunks =>
          let '(writes, assistantContent) := handleSend_stream chunks in
          map SetMessages (message_updates writes allMsgs) ++
          (if js_empty assistantContent then []
           else [InsertMessage ac role_assistant assistantContent]) ++
          [TouchCase ac; LoadCases; SetSending false]
      | _, _ =>
          [ConsoleError; Toast (txt "Error") (txt "Failed to get AI response");
           SetSending false]
      end
  end.

Inductive chat_type := CaseChat | GeneralChat.

(** [handleExplainInDetail(msgIndex, chatType)] ([UserDashboard.tsx]);
    [msgIndex] is the index the message list was rendered with. *)
Definition handleExplainInDetail (msgIndex : nat) (chatType : chat_type)
  (messages generalMessages : list chat_message) (activeCase : option (list Z))
  (user_id : list Z) (profile : option profile) (resp : response)
  : list effect :=
  let msgs := match chatType with CaseChat => messages | GeneralChat => generalMessages end in
  let previousAnswer := match nth_error msgs msgIndex with
                        | Some m => Some (content m)
                        | None => None
                        end in
  if negb (opt_truthy previousAnswer) then [] else
  let ac := match activeCase with Some a => a | None => [] end in
  RefreshProfile ::
  match access_gate profile with
  | Some dialog => [dialog]
  | None =>
      let detailMsg := mk_msg None role_user (txt "Explain in Detail") in
      let allMsgs := firstn (S msgIndex) msgs ++ [detailMsg] in
      let shown := msgs ++ [detailMsg] in
      [SetMessages shown; SetSending true] ++
      (match chatType with
       | CaseChat =>
           if opt_truthy activeCase then [InsertMessage ac role_user (content detailMsg)]
           else []
       | GeneralChat => [InsertGeneralMessage user_id role_user (content detailMsg)]
       end) ++
      ChatRequest (chat_history allMsgs) ::
      let '(calls, result) := streamChat resp in
      map SetMessages (message_updates calls shown) ++
      match result with
      | Returned assistantContent =>
          (if js_empty assistantContent then []
           else match chatType with
                | CaseChat =>
                    if opt_truthy activeCase
                    then [InsertMessage ac role_assistant assistantContent; TouchCase ac]
                    else []
                | GeneralChat =>
                    [InsertGeneralMessage user_id role_assistant assistantContent]
                end) ++
          [SetSending false]
      | Thrown _ =>
          [ConsoleError;
           Toast (txt "Error") (txt "Failed to get detailed response");
           SetSending false]
      end
  end.

End Handlers.

(** ** The case list *)

(** [CaseItem] *)
Record case_item := mk_case {
  case_id : list Z;
  title : list Z;
  updated_at : list Z
}.

(** [ViewMode] *)
Inductive view_mode := ViewEmpty | ViewGeneralChat | ViewNewCase | ViewCaseDetail.

(** The state of [UserDashboard] the case operations read and write. *)
Record dashboard := mk_dash {
  cases : list case_item;
  activeCase : option (list Z);
  view : view_mode;
  messages : list chat_message;
  activeCaseAnalysis : option jvalue;
  editingCaseId : option (list Z);
  editTitle : list Z
}.

(** [deleteCase(id)] *)
Definition deleteCase (id : list Z) (st : dashboard) : list effect * dashboard :=
  let cases' := filter (fun c => negb (list_eqb (case_id c) id)) (cases st) in
  if match activeCase st with Some a => list_eqb a id | None => false end
  then ([DeleteCaseRow id],
        mk_dash cases' None ViewEmpty [] None (editingCaseId st) (editTitle st))
  else ([DeleteCaseRow id],
        mk_dash cases' (activeCase st) (view st) (messages st)
                (activeCaseAnalysis st) (editingCaseId st) (editTitle st)).

(** [renameCase(id)] *)
Definition renameCase (id : list Z) (st : dashboard) : list effect * dashboard :=
  let t := js_trim (editTitle st) in
  if js_empty t then ([], st) else
  ([UpdateCaseTitle id t],
   mk_dash (map (fun c => if list_eqb (case_id c) id
                          then mk_case (case_id c) t (updated_at c) else c) (cases st))
           (activeCase st) (view st) (messages st) (activeCaseAnalysis st)
           None (editTitle st)).

(** [handleNewCase()] (the sidebar is left out). *)
Definition handleNewCase (st : dashboard) : dashboard :=
  mk_dash (cases st) None ViewNewCase [] None (editingCaseId st) (editTitle st).

(** [openCase(caseId)]: [analysis] is [caseData?.analysis_data], [loaded]
    the rows [loadMessages] reads ([None] when [data] is null). *)
Definition openCase (caseId : list Z) (analysis : option jvalue)
  (loaded : option (list chat_message)) (st : dashboard) : dashboard :=
  mk_dash (cases st) (Some caseId) ViewCaseDetail
          (match loaded with Some ms => ms | None => messages st end)
          analysis None (editTitle st).

(** The open case is one of the listed cases. *)
Definition active_listed (st : dashboard) : Prop :=
  match activeCase st with
  | None => True
  | Some a => exists c, In c (cases st) /\ case_id c = a
  end.

(** A call of [deleteCase(id)] waiting for its database delete: the id and
    the [activeCase] of the render its closure comes from. *)
Record pending_delete := mk_pending {
  pd_id : list Z;
  pd_active : option (list Z)
}.

(** [deleteCase] after its [await]: [setCases] filters the latest list,
    while [activeCase === id] reads the [activeCase] the closure captured. *)
Definition deleteCase_resume (p : pending_delete) (st : dashboard) : dashboard :=
  let cases' := filter (fun c => negb (list_eqb (case_id c) (pd_id p))) (cases st) in
  if match pd_active p with Some a => list_eqb a (pd_id p) | None => false end
  then mk_dash cases' None ViewEmpty [] None (editingCaseId st) (editTitle st)
  else mk_dash cases' (activeCase st) (view st) (messages st)
               (activeCaseAnalysis st) (editingCaseId st) (editTitle st).

(** [renameCase] after its [await], with the trimmed title [t] its closure
    captured. *)
Definition renameCase_resume (id t : list Z) (st : dashboard) : dashboard :=
  mk_dash (map (fun c => if list_eqb (case_id c) id
                         then mk_case (case_id c) t (updated_at c) else c) (cases st))
          (activeCase st) (view st) (messages st) (activeCaseAnalysis st)
          None (editTitle st).

(** [openCase(caseId)] up to its first [await]. *)
Definition openCase_start (caseId : list Z) (st : dashboard) : dashboard :=
  mk_dash (cases st) (Some caseId) ViewCaseDetail (messages st)
          (activeCaseAnalysis st) None (editTitle st).

(** The dashboard and the [deleteCase] calls still waiting, oldest first. *)
Record sidebar := mk_sidebar {
  dash : dashboard;
  pending : list pending_delete
}.

(** The sidebar operations, each [await] splitting a handler in two steps
    between which any other step can run; a case is opened by clicking it
    in the list. *)
Inductive sidebar_step : sidebar -> sidebar -> Prop :=
| sb_delete_call id d ps :
    sidebar_step (mk_sidebar d ps) (mk_sidebar d (ps ++ [mk_pending id (activeCase d)]))
| sb_delete_return pre p post d :
    sidebar_step (mk_sidebar d (pre ++ p :: post))
                 (mk_sidebar (deleteCase_resume p d) (pre ++ post))
| sb_rename_return id t d ps :
    sidebar_step (mk_sidebar d ps) (mk_sidebar (renameCase_resume id t d) ps)
| sb_new d ps :
    sidebar_step (mk_sidebar d ps) (mk_sidebar (handleNewCase d) ps)
| sb_open_call c d ps :
    In c (cases d) ->
    sidebar_step (mk_sidebar d ps) (mk_sidebar (openCase_start (case_id c) d) ps)
| sb_open_analysis analysis d ps :
    sidebar_step (mk_sidebar d ps)
      (mk_sidebar (mk_dash (cases d) (activeCase d) (view d) (messages d) analysis
                           (editingCaseId d) (editTitle d)) ps)
| sb_open_messages ms d ps :
    sidebar_step (mk_sidebar d ps)
      (mk_sidebar (mk_dash (cases d) (activeCase d) (view d) ms
                           (activeCaseAnalysis d) (editingCaseId d) (editTitle d)) ps).

(** A step that opens a case whose delete is still waiting. *)
Definition reopens_pending (s s' : sidebar) : Prop :=
  exists p, In p (pending s) /\ activeCase (dash s') = Some (pd_id p) /\
            activeCase (dash s) <> Some (pd_id p).

(** The open case is listed, and every waiting delete of the open case was
    called while that case was open. *)
Definition sidebar_ok (s : sidebar) : Prop :=
  active_listed (dash s) /\
  forall p, In p (pending s) -> activeCase (dash s) = Some (pd_id p) ->
            pd_active p = Some (pd_id p).

(** ** The sign-in page ([AuthPage.tsx]) and [useAuth] *)

(** [s.includes(p)] *)
Fixpoint includes (p s : list Z) : bool :=
  starts_with p s || match s with [] => false | _ :: s' => includes p s' end.

Definition at_sign : list Z := txt "@".

(** [signIn]'s [loginEmail]: a user name without [@] is given the local
    domain. *)
Definition login_email (email : list Z) : list Z :=
  if includes at_sign email then email else email ++ txt "@legalworkspace.local".

Inductive auth_mode := ModeLogin | ModeSignup | ModeVerifyOtp.

Inductive auth_effect :=
| SetLoading (b : bool)
| CallSignIn (email password : list Z)
| CallSignUp (email password name phone : list Z)
| CallVerifyOtp (email token password : list Z)
| SetPending (email password : list Z)
| SetMode (m : auth_mode)
| AuthToast (title description : list Z)
| Navigate (path : list Z).

(** The answer of [signIn] and [verifyOtp]: [{ error, isAdmin }]. *)
Record auth_result := mk_auth_result {
  error : option (list Z);
  isAdmin : bool
}.

(** [navigate(isAdmin ? "/admin" : "/dashboard")] *)
Definition home_path (admin : bool) : list Z :=
  if admin then txt "/admin" else txt "/dashboard".

(** [handleLogin()]; [r] is what [signIn] answers. *)
Definition handleLogin (email password : list Z) (r : auth_result)
  : list auth_effect :=
  if js_empty (js_trim email) || js_empty (js_trim password) then [] else
  [SetLoading true; CallSignIn (js_trim email) password; SetLoading false] ++
  match error r with
  | Some e => if js_empty e then [Navigate (home_path (isAdmin r))]
              else [AuthToast (txt "Login Failed") e]
  | None => [Navigate (home_path (isAdmin r))]
  end.

(** [handleSignup()]; [signup_error] is what [signUp] answers. *)
Definition handleSignup (name email phone password confirmPassword : list Z)
  (signup_error : option (list Z)) : list auth_effect :=
  if js_empty (js_trim name) || js_empty (js_trim email) || js_empty (js_trim phone)
     || js_empty password || js_empty confirmPassword
  then [AuthToast (txt "Missing Fields") (txt "Please fill all fields")]
  else if negb (includes at_sign email)
  then [AuthToast (txt "Invalid Email") (txt "Please enter a valid email address")]
  else if negb (list_eqb password confirmPassword)
  then [AuthToast (txt "Password Mismatch") (txt "Passwords do not match")]
  else if (List.length password <? 6)%nat
  then [AuthToast (txt "Weak Password") (txt "Password must be at least 6 characters")]
  else
  [SetLoading true;
   CallSignUp (js_trim email) password (js_trim name) (js_trim phone);
   SetLoading false] ++
  if opt_truthy signup_error
  then [AuthToast (txt "Signup Failed")
                  (match signup_error with Some e => e | None => [] end)]
  else [SetPending (js_trim email) password; SetMode ModeVerifyOtp;
        AuthToast (txt "Verification Code Sent")
                  (txt "Check your email for the 6-digit code")].

(** ** Reading the analysis reply ([analyzeCase]) *)

(** [s.replace(re, "")] for a global [re] made of the literal [pat] and an
    optional newline ([/pat\n?/g]): matches are found left to right, each
    resuming after the previous one. *)
Fixpoint remove_matches (fuel : nat) (pat s : list Z) : list Z :=
  match fuel with
  | O => s
  | S f =>
      match s with
      | [] => []
      | c :: s' =>
          if starts_with pat s then
            let rest := skipn (List.length pat) s in
            match rest with
            | x :: rest' => if x =? NL then remove_matches f pat rest'
                            else remove_matches f pat rest
            | [] => []
            end
          else c :: remove_matches f pat s'
      end
  end.

Definition replace_all (pat s : list Z) : list Z :=
  remove_matches (S (List.length s)) pat s.

Definition fence_json : list Z := txt "```json".
Definition fence : list Z := txt "```".

(** [content.replace(/```json\n?/g, "").replace(/```\n?/g, "").trim()] *)
Definition strip_fences (content : list Z) : list Z :=
  js_trim (replace_all fence (replace_all fence_json content)).

Section AnalysisReply.
Context {NS : NumberSemantics}.

(** [data.choices?.[0]?.message?.content || ""] followed by [.replace]:
    [None] when it throws (reading [choices] of [null], or [replace] on a
    value that is not a string). *)
Definition reply_content (data : jvalue) : option (list Z) :=
  match data with
  | JNull => None
  | _ =>
      let choices := get_named data (txt "choices") in
      let first := opt_chain choices get_index0 in
      let message := opt_chain first (fun v => get_named v (txt "message")) in
      let c := opt_chain message (fun v => get_named v (txt "content")) in
      if truthy c then
        match c with
        | Val (JStr s) => Some s
        | _ => None
        end
      else Some []
  end.

(** The analysis [analyzeCase] stores, read from the reply [data]: [None]
    when the [try] block throws before the case is inserted. *)
Definition analysis_of_reply (data : jvalue) : option jvalue :=
  match reply_content data with
  | Some content => json_parse (strip_fences content)
  | None => None
  end.

End AnalysisReply.

(** ** The admin dashboard *)

(** [UserRow] *)
Record user_row := mk_user_row {
  row_user_id : list Z;
  row_name : list Z;
  row_username : list Z;
  row_phone : option (list Z);
  row_access_enabled : bool;
  row_subscription_active : bool;
  row_created_at : list Z
}.

(** [fetchUsers()]: the list written by [setUsers], [None] when it is not
    called.  [profiles] is the data of the profiles query ([None] on error or
    null data), [adminRoles] the [user_id]s of the role query ([None] when
    its data is null). *)
Definition fetchUsers (profiles : option (list user_row))
  (adminRoles : option (list (list Z))) : option (list user_row) :=
  match profiles with
  | Some data =>
      let adminIds := match adminRoles with Some ids => ids | None => [] end in
      Some (filter (fun u => negb (existsb (list_eqb (row_user_id u)) adminIds)) data)
  | None => None
  end.

(** The rows [deleteUser] touches: [general_messages] by owner, [cases] by
    id and owner, [messages] by case. *)
Record db := mk_db {
  general_rows : list (list Z * chat_message);
  case_rows : list (list Z * list Z);
  message_rows : list (list Z * chat_message)
}.

(** [deleteUser(userId)] up to the [delete-user] function: the three
    deletes as the queries ask them. *)
Definition deleteUser (userId : list Z) (d : db) : db :=
  let general' := filter (fun r => negb (list_eqb (fst r) userId)) (general_rows d) in
  let userCases := map fst (filter (fun r => list_eqb (snd r) userId) (case_rows d)) in
  if negb (Nat.eqb (List.length userCases) 0) then
    mk_db general'
          (filter (fun r => negb (list_eqb (snd r) userId)) (case_rows d))
          (filter (fun r => negb (existsb (list_eqb (fst r)) userCases)) (message_rows d))
  else mk_db general' (case_rows d) (message_rows d).

(** Every message belongs to a listed case. *)
Definition messages_have_cases (d : db) : Prop :=
  forall m, In m (message_rows d) -> exists c, In c (case_rows d) /\ fst c = fst m.

(** The two switches of a profile the admin can flip. *)
Inductive profile_field := FieldAccess | FieldSubscription.

Definition get_field (field : profile_field) (u : user_row) : bool :=
  match field with
  | FieldAccess => row_access_enabled u
  | FieldSubscription => row_subscription_active u
  end.

(** [{ ...u, [field]: v }] *)
Definition set_field (field : profile_field) (v : bool) (u : user_row) : user_row :=
  match field with
  | FieldAccess =>
      mk_user_row (row_user_id u) (row_name u) (row_username u) (row_phone u)
                  v (row_subscription_active u) (row_created_at u)
  | FieldSubscription =>
      mk_user_row (row_user_id u) (row_name u) (row_username u) (row_phone u)
                  (row_access_enabled u) v (row_created_at u)
  end.

(** [toggleField(userId, field, current)]: the user list after the call
    and the toast shown; [update_error] is the error of the profile update
    ([None] when it succeeds). *)
Definition toggleField (userId : list Z) (field : profile_field) (current : bool)
  (update_error : option (list Z)) (users : list user_row)
  : list user_row * (list Z * list Z) :=
  match update_error with
  | Some message => (users, (txt "Error", message))
  | None =>
      (map (fun u => if list_eqb (row_user_id u) userId
                     then set_field field (negb current) u else u) users,
       (txt "Updated",
        (match field with FieldAccess => txt "Access" | FieldSubscription => txt "Subscription" end)
          ++ txt " toggled"))
  end.

(** ** Verifying the emailed code ([AuthPage]) *)

(** [handleVerifyOtp()]; [r] is what [verifyOtp] answers. *)
Definition handleVerifyOtp (pendingEmail pendingPassword otpValue : list Z)
  (r : auth_result) : list auth_effect :=
  if negb (Nat.eqb (List.length otpValue) 6) then [] else
  [SetLoading true; CallVerifyOtp pendingEmail otpValue pendingPassword; SetLoading false] ++
  match error r with
  | Some e => if js_empty e
              then [AuthToast (txt "Account Verified")
                              (txt "Welcome to Legal Intelligence Workspace!");
                    Navigate (home_path (isAdmin r))]
              else [AuthToast (txt "Verification Failed") e]
  | None => [AuthToast (txt "Account Verified")
                       (txt "Welcome to Legal Intelligence Workspace!");
             Navigate (home_path (isAdmin r))]
  end.

(** ** Saving the general chat as a case ([UserDashboard]) *)

Inductive save_effect :=
| SaveInsertCase (user_id title : list Z)
| SaveInsertMessages (rows : list (list Z * list Z * list Z))
| SaveDeleteGeneral (user_id : list Z)
| SaveSetGeneralMessages (ms : list chat_message)
| SavePrependCase (c : case_item)
| SaveCloseDialog
| SaveSetTitle (s : list Z)
| SaveOpenCase (case_id : list Z)
| SaveToast (title description : list Z).

(** [handleSaveAsCase()]; [newCase] is the row the case insert returns
    ([None] when its data is null).  A message row is
    [(case_id, role, content)]. *)
Definition handleSaveAsCase (user_id saveCaseTitle : list Z)
  (generalMessages : list chat_message) (newCase : option case_item)
  : list save_effect :=
  if js_empty (js_trim saveCaseTitle) || Nat.eqb (List.length generalMessages) 0
  then [] else
  SaveInsertCase user_id (js_trim saveCaseTitle) ::
  match newCase with
  | Some nc =>
      [SaveInsertMessages (map (fun m => (case_id nc, role m, content m)) generalMessages);
       SaveDeleteGeneral user_id;
       SaveSetGeneralMessages [];
       SavePrependCase nc;
       SaveCloseDialog;
       SaveSetTitle [];
       SaveOpenCase (case_id nc);
       SaveToast (txt "Saved") (txt "Conversation saved as case")]
  | None => []
  end.

(** * Properties *)

(** ** Text helpers *)

Lemma decode_stream_app : forall x y d,
  decode_stream d (x ++ y) =
  let '(d1, t1) := decode_stream d x in
  let '(d2, t2) := decode_stream d1 y in (d2, t1 ++ t2).
Proof.
  induction x as [|b x IH]; intros y d; simpl.
  - destruct (decode_stream d y); reflexivity.
  - destruct (decode_byte d b) as [d1 t1].
    rewrite IH. destruct (decode_stream d1 x) as [d2 t2].
    destruct (decode_stream d2 y) as [d3 t3]. rewrite app_assoc. reflexivity.
Qed.

Lemma index_of_none : forall c s, index_of c s = None -> ~ In c s.
Proof.
  intros c s; induction s as [|x s IH]; simpl; [tauto|].
  destruct (Z.eqb_spec x c); [discriminate|].
  destruct (index_of c s); [discriminate|]. intros _ [H|H]; [congruence|tauto].
Qed.

Lemma index_of_some : forall c s i, index_of c s = Some i ->
  s = firstn i s ++ c :: skipn (S i) s /\ ~ In c (firstn i s).
Proof.
  intros c s; induction s as [|x s IH]; simpl; intros i H; [discriminate|].
  destruct (Z.eqb_spec x c) as [->|Hne].
  - injection H as <-. simpl. auto.
  - destruct (index_of c s) as [j|] eqn:E; [|discriminate].
    injection H as <-. destruct (IH j eq_refl) as [H1 H2]. simpl.
    split; [f_equal; exact H1|]. intros [H|H]; [congruence|tauto].
Qed.

Lemma index_of_split : forall c l r, ~ In c l ->
  index_of c (l ++ c :: r) = Some (List.length l).
Proof.
  intros c l r; induction l as [|x l IH]; simpl; intros H.
  - rewrite Z.eqb_refl. reflexivity.
  - destruct (Z.eqb_spec x c); [tauto|]. rewrite IH by tauto. reflexivity.
Qed.

Lemma split_first_nl : forall b,
  ~ In NL b \/ exists l r, ~ In NL l /\ b = l ++ NL :: r.
Proof.
  intros b. destruct (index_of NL b) as [i|] eqn:E.
  - right. apply index_of_some in E as [H1 H2]. eauto.
  - left. apply index_of_none. exact E.
Qed.

Lemma not_in_firstn : forall (c : Z) n l, ~ In c l -> ~ In c (firstn n l).
Proof.
  intros c n l H Hin. apply H. rewrite <- (firstn_skipn n l). apply in_or_app. auto.
Qed.

Lemma ends_with_snoc : forall c l, ends_with c l = true ->
  l = firstn (List.length l - 1)%nat l ++ [c].
Proof.
  intros c l. induction l as [|x l _] using rev_ind; unfold ends_with.
  - discriminate.
  - rewrite rev_app_distr. simpl. intros H. apply Z.eqb_eq in H as ->.
    rewrite length_app. simpl. rewrite Nat.add_sub.
    rewrite firstn_app, firstn_all, Nat.sub_diag. simpl. rewrite app_nil_r. reflexivity.
Qed.

Lemma strip_cr_cases : forall l, strip_cr l = l \/ l = strip_cr l ++ [CR].
Proof.
  intros l. unfold strip_cr. destruct (ends_with CR l) eqn:E; [|auto].
  right. apply ends_with_snoc. exact E.
Qed.

Lemma strip_cr_not_in : forall c l, ~ In c l -> ~ In c (strip_cr l).
Proof.
  intros c l H. unfold strip_cr. destruct (ends_with CR l); [|exact H].
  apply not_in_firstn. exact H.
Qed.



Lemma starts_with_snoc : forall p z c, ~ In c p ->
  starts_with p (z ++ [c]) = starts_with p z.
Proof.
  induction p as [|x p IH]; intros z c H; [reflexivity|].
  destruct z as [|y z]; simpl.
  - destruct (Z.eqb_spec x c); [subst; simpl in H; tauto|reflexivity].
  - rewrite IH by (simpl in H; tauto). reflexivity.
Qed.

Lemma starts_with_length : forall p z, starts_with p z = true ->
  (List.length p <= List.length z)%nat.
Proof.
  induction p as [|x p IH]; intros z H; simpl; [lia|].
  destruct z as [|y z]; [discriminate|]. simpl in H.
  apply andb_prop in H as [_ H]. apply IH in H. simpl. lia.
Qed.

Lemma drop_space_snoc : forall w c, js_is_space c = true ->
  drop_space (w ++ [c]) = if forallb js_is_space w then [] else drop_space w ++ [c].
Proof.
  induction w as [|x w IH]; intros c H; simpl.
  - rewrite H. reflexivity.
  - destruct (js_is_space x); simpl; [apply IH; exact H|reflexivity].
Qed.

Lemma drop_space_all : forall w, forallb js_is_space w = true -> drop_space w = [].
Proof.
  induction w as [|x w IH]; simpl; [reflexivity|].
  intros H. apply andb_prop in H as [-> H]. apply IH. exact H.
Qed.

Lemma js_trim_snoc_space : forall w c, js_is_space c = true ->
  js_trim (w ++ [c]) = js_trim w.
Proof.
  intros w c H. unfold js_trim. rewrite drop_space_snoc by exact H.
  destruct (forallb js_is_space w) eqn:E.
  - rewrite (drop_space_all w E). reflexivity.
  - rewrite rev_app_distr. simpl. rewrite H. reflexivity.
Qed.

Lemma CR_not_in_prefix : ~ In CR data_prefix.
Proof. cbv. intuition discriminate. Qed.

Lemma CR_is_space : js_is_space CR = true.
Proof. reflexivity. Qed.

Lemma firstn_line : forall (l r : list Z) c, firstn (List.length l) (l ++ c :: r) = l.
Proof.
  intros l r c. rewrite firstn_app, firstn_all, Nat.sub_diag. simpl. apply app_nil_r.
Qed.

Lemma skipn_line : forall (l r : list Z) c, skipn (S (List.length l)) (l ++ c :: r) = r.
Proof.
  intros l r c. rewrite skipn_app, skipn_all2 by lia.
  replace (S (List.length l) - List.length l)%nat with 1%nat by lia. reflexivity.
Qed.

Section LoopFacts.
Context {NS : NumberSemantics}.

Lemma classify_strip_cr : forall l, classify (strip_cr l) = classify l.
Proof.
  intros l. unfold classify, payload.
  remember (strip_cr l) as x eqn:Hx0. clear Hx0.
  destruct (strip_cr_cases x) as [Hx|Hx]; [rewrite Hx; reflexivity|].
  remember (strip_cr x) as z eqn:Hz. clear Hz. rewrite Hx.
  rewrite (starts_with_snoc _ _ _ CR_not_in_prefix).
  destruct (starts_with data_prefix z) eqn:S; [|reflexivity].
  apply starts_with_length in S. unfold data_prefix in S. simpl in S.
  rewrite skipn_app. replace (6 - List.length z)%nat with 0%nat by lia. simpl.
  rewrite (js_trim_snoc_space _ _ CR_is_space). reflexivity.
Qed.

Ltac same_branches :=
  repeat match goal with
  | |- context [if ?b then _ else _] => destruct b
  | |- context [match fragment_of ?x with _ => _ end] =>
      destruct (fragment_of x) as [[?|]|]
  end.

Lemma drain_fuel : forall f1 f2 st,
  (List.length (buffer st) < f1)%nat -> (List.length (buffer st) < f2)%nat ->
  drain f1 st = drain f2 st.
Proof.
  induction f1 as [|f1 IH]; intros f2 st H1 H2; [lia|].
  destruct f2 as [|f2]; [lia|]. cbn [drain].
  destruct (index_of NL (buffer st)) as [i|] eqn:E; [|reflexivity].
  apply index_of_some in E as [Hs _].
  apply (f_equal (@List.length Z)) in Hs. rewrite length_app in Hs. simpl in Hs.
  same_branches; try reflexivity; apply IH; simpl; lia.
Qed.

Lemma drain_fuel_all : forall f st, (List.length (buffer st) < f)%nat ->
  drain f st = drain_all st.
Proof. intros f st H. apply drain_fuel; [exact H|lia]. Qed.

Lemma drain_all_no_nl : forall b a t, ~ In NL b ->
  drain_all (mk_loop b a t) = (mk_loop b a t, NoNewline).
Proof.
  intros b a t H. unfold drain_all. cbn [drain buffer].
  destruct (index_of NL b) as [i|] eqn:E; [|reflexivity].
  apply index_of_some in E as [Hs _]. exfalso. apply H.
  rewrite Hs. apply in_or_app. right. left. reflexivity.
Qed.

Lemma drain_all_line : forall l r a t, ~ In NL l ->
  drain_all (mk_loop (l ++ NL :: r) a t) =
  match classify l with
  | KSkip | KNoFragment => drain_all (mk_loop r a t)
  | KDone => (mk_loop r a t, SawDone)
  | KFail => (mk_loop (strip_cr l ++ NL :: r) a t, ParseFailed)
  | KFragment frag => drain_all (mk_loop r (a ++ frag) (t ++ [a ++ frag]))
  end.
Proof.
  intros l r a t H. unfold drain_all. cbn [drain buffer assistantContent deltas].
  rewrite index_of_split by exact H. rewrite firstn_line, skipn_line.
  unfold classify, payload, strip_cr.
  assert (Hlen : (List.length r < List.length (l ++ NL :: r))%nat)
    by (rewrite length_app; simpl; lia).
  same_branches; try reflexivity; apply drain_fuel_all; simpl; lia.
Qed.

End LoopFacts.

Lemma buffer_lines_ind (P : list Z -> Prop) :
  (forall b, ~ In NL b -> P b) ->
  (forall l r, ~ In NL l -> P r -> P (l ++ NL :: r)) ->
  forall b, P b.
Proof.
  intros Hbase Hstep b.
  remember (List.length b) as n eqn:Hn.
  revert b Hn. induction n as [n IH] using lt_wf_ind. intros b Hn.
  destruct (split_first_nl b) as [H|(l & r & Hl & ->)]; [apply Hbase; exact H|].
  apply Hstep; [exact Hl|]. apply (IH (List.length r)); [|reflexivity].
  rewrite Hn, length_app. simpl. lia.
Qed.

Lemma lines_from_no_nl : forall t cur, ~ In NL t -> lines_from cur t = [].
Proof.
  induction t as [|c t IH]; intros cur H; simpl; [reflexivity|].
  destruct (Z.eqb_spec c NL) as [->|_]; [simpl in H; tauto|].
  apply IH. simpl in H. tauto.
Qed.

Lemma lines_from_line : forall l r cur, ~ In NL l ->
  lines_from cur (l ++ NL :: r) = (rev cur ++ l) :: lines_from [] r.
Proof.
  induction l as [|c l IH]; intros r cur H; simpl.
  - rewrite app_nil_r. reflexivity.
  - destruct (Z.eqb_spec c NL) as [->|_]; [simpl in H; tauto|].
    rewrite IH by (simpl in H; tauto). simpl. rewrite <- app_assoc. reflexivity.
Qed.

Lemma complete_lines_line : forall l r, ~ In NL l ->
  complete_lines (l ++ NL :: r) = l :: complete_lines r.
Proof. intros l r H. unfold complete_lines. rewrite lines_from_line by exact H. reflexivity. Qed.

Lemma complete_lines_no_nl : forall t, ~ In NL t -> complete_lines t = [].
Proof. intros t H. apply lines_from_no_nl. exact H. Qed.

Lemma complete_lines_nil : forall t, complete_lines t = [] -> ~ In NL t.
Proof.
  intros t H. destruct (split_first_nl t) as [H'|(l & r & Hl & ->)]; [exact H'|].
  rewrite complete_lines_line in H by exact Hl. discriminate.
Qed.

Section LoopInvariants.
Context {NS : NumberSemantics}.

(** Draining [b ++ x] is draining [b], then, if [b] ran out of newlines,
    draining what is left of it followed by [x]. *)
Lemma drain_all_app : forall b x a t,
  drain_all (mk_loop (b ++ x) a t) =
  let '(st, e) := drain_all (mk_loop b a t) in
  match e with
  | NoNewline => drain_all (mk_loop (buffer st ++ x) (assistantContent st) (deltas st))
  | _ => (mk_loop (buffer st ++ x) (assistantContent st) (deltas st), e)
  end.
Proof.
  intros b x. induction b as [b Hb|l r Hl IH] using buffer_lines_ind; intros a t.
  - rewrite (drain_all_no_nl b a t Hb). reflexivity.
  - rewrite <- app_assoc. simpl.
    rewrite !drain_all_line by exact Hl.
    destruct (classify l); try apply IH; simpl; rewrite <- ?app_assoc; reflexivity.
Qed.

Lemma drain_no_newline : forall b a t st,
  drain_all (mk_loop b a t) = (st, NoNewline) -> ~ In NL (buffer st).
Proof.
  intros b. induction b as [b Hb|l r Hl IH] using buffer_lines_ind; intros a t st H.
  - rewrite drain_all_no_nl in H by exact Hb. injection H as <-. exact Hb.
  - rewrite drain_all_line in H by exact Hl.
    destruct (classify l); try discriminate; eapply IH; exact H.
Qed.

Lemma drain_parse_failed : forall b a t st,
  drain_all (mk_loop b a t) = (st, ParseFailed) ->
  exists l r, ~ In NL l /\ classify l = KFail /\ buffer st = l ++ NL :: r.
Proof.
  intros b. induction b as [b Hb|l r Hl IH] using buffer_lines_ind; intros a t st H.
  - rewrite drain_all_no_nl in H by exact Hb. discriminate.
  - rewrite drain_all_line in H by exact Hl.
    destruct (classify l) eqn:K; try discriminate; try (eapply IH; exact H).
    injection H as <-. exists (strip_cr l), r. simpl.
    rewrite classify_strip_cr. auto using strip_cr_not_in.
Qed.

(** Once the first complete line of the buffer makes the [try] block
    throw, no later chunk changes [assistantContent] or calls [onDelta]. *)
Lemma read_loop_stalled : forall cs d l r a t,
  ~ In NL l -> classify l = KFail ->
  assistantContent (read_loop cs d (mk_loop (l ++ NL :: r) a t)) = a /\
  deltas (read_loop cs d (mk_loop (l ++ NL :: r) a t)) = t.
Proof.
  induction cs as [|c cs IH]; intros d l r a t Hl K; simpl; [auto|].
  destruct (decode_stream d c) as [d' text].
  rewrite <- app_assoc. simpl. rewrite drain_all_line by exact Hl. rewrite K.
  apply IH; [apply strip_cr_not_in; exact Hl|rewrite classify_strip_cr; exact K].
Qed.

Lemma read_loop_app : forall cs v d st,
  read_loop (cs ++ [v]) d st =
  read_loop [v] (fst (decode_stream d (List.concat cs))) (read_loop cs d st).
Proof.
  induction cs as [|c cs IH]; intros v d st; [reflexivity|].
  simpl. rewrite decode_stream_app.
  destruct (decode_stream d c) as [d1 t1].
  destruct (drain_all _) as [st1 e]. rewrite IH.
  destruct (decode_stream d1 (List.concat cs)). reflexivity.
Qed.


Lemma drain_no_fragment : forall b y a t,
  no_fragment_lines (b ++ y) = true ->
  let '(st, _) := drain_all (mk_loop b a t) in
  assistantContent st = a /\ deltas st = t /\ no_fragment_lines (buffer st ++ y) = true.
Proof.
  intros b y. unfold no_fragment_lines.
  induction b as [b Hb|l r Hl IH] using buffer_lines_ind; intros a t H.
  - rewrite drain_all_no_nl by exact Hb. auto.
  - rewrite drain_all_line by exact Hl.
    rewrite <- app_assoc in H. simpl in H.
    rewrite complete_lines_line in H by exact Hl. simpl in H.
    apply andb_prop in H as [Hf H]. unfold carries_fragment in Hf.
    destruct (classify l) eqn:K; try discriminate; try (apply IH; exact H).
    + simpl. auto.
    + simpl. split; [reflexivity|split; [reflexivity|]].
      rewrite <- app_assoc. simpl.
      rewrite complete_lines_line by (apply strip_cr_not_in; exact Hl).
      simpl. unfold carries_fragment. rewrite classify_strip_cr, K. exact H.
Qed.

Lemma read_loop_no_fragment : forall cs d st,
  no_fragment_lines (buffer st ++ snd (decode_stream d (List.concat cs))) = true ->
  assistantContent (read_loop cs d st) = assistantContent st /\
  deltas (read_loop cs d st) = deltas st.
Proof.
  induction cs as [|c cs IH]; intros d [b a t] H; simpl; [auto|].
  simpl in H. rewrite decode_stream_app in H.
  destruct (decode_stream d c) as [d1 t1].
  destruct (decode_stream d1 (List.concat cs)) as [d2 t2] eqn:E2. simpl in H.
  rewrite app_assoc in H.
  pose proof (drain_no_fragment (b ++ t1) t2 a t H) as Hd.
  destruct (drain_all (mk_loop (b ++ t1) a t)) as [st1 e].
  destruct Hd as (Ha & Ht & Hn).
  rewrite <- Ha, <- Ht. apply IH. rewrite E2. exact Hn.
Qed.

End LoopInvariants.

Section Chunking.
Context {NS : NumberSemantics}.

Lemma drain_done_is_last : forall x y a t,
  done_is_last (complete_lines (x ++ y)) = true ->
  match drain_all (mk_loop x a t) with
  | (st, NoNewline) => done_is_last (complete_lines (buffer st ++ y)) = true
  | (st, SawDone) => ~ In NL (buffer st ++ y)
  | (_, ParseFailed) => True
  end.
Proof.
  intros x y. induction x as [x Hx|l r Hl IH] using buffer_lines_ind; intros a t H.
  - rewrite drain_all_no_nl by exact Hx. exact H.
  - rewrite drain_all_line by exact Hl.
    rewrite <- app_assoc in H. simpl in H.
    rewrite complete_lines_line in H by exact Hl. simpl in H.
    destruct (classify l); try (apply IH; exact H); [|exact I].
    simpl. apply complete_lines_nil.
    destruct (complete_lines (r ++ y)); [reflexivity|discriminate].
Qed.

(** Reading the remaining chunks [cs] from a buffer without a newline ends
    where draining the buffer followed by all their text at once ends,
    when no complete line follows a [[DONE]] line. *)
Lemma read_loop_chunking : forall cs d st,
  ~ In NL (buffer st) ->
  done_is_last (complete_lines (buffer st ++ snd (decode_stream d (List.concat cs)))) = true ->
  let st' := read_loop cs d st in
  let st'' := fst (drain_all (mk_loop (buffer st ++ snd (decode_stream d (List.concat cs)))
                                      (assistantContent st) (deltas st))) in
  (deltas st', assistantContent st') = (deltas st'', assistantContent st'').
Proof.
  induction cs as [|c cs IH]; intros d [b a t] Hb H; simpl in *.
  - rewrite app_nil_r, drain_all_no_nl by exact Hb. reflexivity.
  - rewrite decode_stream_app in *.
    destruct (decode_stream d c) as [d1 t1].
    destruct (decode_stream d1 (List.concat cs)) as [d2 t2] eqn:E2.
    simpl in *. rewrite app_assoc in *.
    rewrite (drain_all_app (b ++ t1) t2 a t).
    pose proof (drain_done_is_last (b ++ t1) t2 a t H) as Hd.
    destruct (drain_all (mk_loop (b ++ t1) a t)) as [[b1 a1 t1'] e] eqn:Ed.
    destruct e; simpl in *.
    + specialize (IH d1 (mk_loop b1 a1 t1')). simpl in IH. rewrite E2 in IH.
      apply IH; [apply drain_no_newline in Ed; exact Ed|exact Hd].
    + specialize (IH d1 (mk_loop b1 a1 t1')). simpl in IH. rewrite E2 in IH.
      rewrite IH.
      * rewrite drain_all_no_nl by exact Hd. reflexivity.
      * intros Hin. apply Hd. apply in_or_app. auto.
      * rewrite complete_lines_no_nl by exact Hd. reflexivity.
    + apply drain_parse_failed in Ed as (l & r & Hl & K & Hb1). simpl in Hb1. subst b1.
      destruct (read_loop_stalled cs d1 l r a1 t1' Hl K) as [-> ->]. reflexivity.
Qed.

Lemma chunking_invariant : forall chunks,
  done_is_last (complete_lines (stream_text chunks)) = true ->
  decode_chunks chunks = decode_chunks [List.concat chunks].
Proof.
  intros chunks H. unfold decode_chunks.
  pose proof (read_loop_chunking chunks decoder_init loop_init (fun h => h) H) as H1.
  assert (Hc : List.concat [List.concat chunks] = List.concat chunks)
    by (simpl; apply app_nil_r).
  pose proof (read_loop_chunking [List.concat chunks] decoder_init loop_init
                (fun h => h)) as H2.
  rewrite Hc in H2. cbv zeta in H1, H2. rewrite H1, (H2 H). reflexivity.
Qed.

End Chunking.

Lemma running_concat_snoc : forall fs acc f,
  running_concat acc (fs ++ [f]) =
  running_concat acc fs ++ [acc ++ List.concat fs ++ f].
Proof.
  induction fs as [|g fs IH]; intros acc f; simpl; [reflexivity|].
  rewrite IH. rewrite <- !app_assoc. reflexivity.
Qed.


Section Accumulation.
Context {NS : NumberSemantics}.


Lemma drain_running : forall b a t,
  running_state (mk_loop b a t) -> running_state (fst (drain_all (mk_loop b a t))).
Proof.
  intros b. induction b as [b Hb|l r Hl IH] using buffer_lines_ind; intros a t H.
  - rewrite drain_all_no_nl by exact Hb. exact H.
  - rewrite drain_all_line by exact Hl.
    destruct H as (fs & Ht & Ha). simpl in Ht, Ha.
    destruct (classify l) as [| | | |frag];
      [apply IH; exists fs; auto|exists fs; auto|exists fs; auto
      |apply IH; exists fs; auto|].
    apply IH. exists (fs ++ [frag]). simpl. split.
    + rewrite running_concat_snoc, Ht, Ha. reflexivity.
    + rewrite Ha, concat_app. simpl. rewrite app_nil_r. reflexivity.
Qed.

Lemma read_loop_running : forall cs d st,
  running_state st -> running_state (read_loop cs d st).
Proof.
  induction cs as [|c cs IH]; intros d [b a t] H; simpl; [exact H|].
  destruct (decode_stream d c) as [d1 t1].
  pose proof (drain_running (b ++ t1) a t H) as Hd.
  destruct (drain_all (mk_loop (b ++ t1) a t)) as [st1 e]. apply IH. exact Hd.
Qed.

Lemma streamChat_ok : forall chunks,
  streamChat (mk_response true (Some chunks)) =
  (fst (decode_chunks chunks), Returned (snd (decode_chunks chunks))).
Proof. reflexivity. Qed.

Lemma hs_drain_drain : forall f b a t,
  hs_drain f (mk_send b a t) =
  let st := fst (drain f (mk_loop b a t)) in
  mk_send (buffer st) (assistantContent st) (deltas st).
Proof.
  induction f as [|f IH]; intros b a t; [reflexivity|].
  cbn [hs_drain drain hs_buffer hs_assistantContent set_messages
       buffer assistantContent deltas].
  destruct (index_of NL b); [|reflexivity].
  repeat match goal with
  | |- context [if ?c then _ else _] => destruct c
  | |- context [match fragment_of ?x with _ => _ end] =>
      destruct (fragment_of x) as [[?|]|]
  end; try reflexivity; rewrite IH; reflexivity.
Qed.

Lemma hs_read_loop_read_loop : forall cs d b a t,
  hs_read_loop cs d (mk_send b a t) =
  let st := read_loop cs d (mk_loop b a t) in
  mk_send (buffer st) (assistantContent st) (deltas st).
Proof.
  induction cs as [|c cs IH]; intros d b a t; [reflexivity|].
  cbn [hs_read_loop read_loop hs_buffer hs_assistantContent set_messages
       buffer assistantContent deltas].
  destruct (decode_stream d c) as [d1 t1].
  rewrite hs_drain_drain.
  change (drain (S (List.length (b ++ t1))) (mk_loop (b ++ t1) a t))
    with (drain_all (mk_loop (b ++ t1) a t)).
  destruct (drain_all (mk_loop (b ++ t1) a t)) as [[b1 a1 t1'] e].
  cbn [fst buffer assistantContent deltas]. apply IH.
Qed.

End Accumulation.

Section LineKinds.
Context {NS : NumberSemantics}.

Lemma malformed_kind : forall l,
  starts_with data_prefix (strip_cr l) = true ->
  list_eqb (payload l) done_sentinel = false ->
  json_parse (payload l) = None ->
  classify l = KFail.
Proof.
  intros l H1 H2 H3. unfold classify. rewrite H1, H2. simpl.
  unfold fragment_of. rewrite H3. reflexivity.
Qed.

Lemma done_kind : forall l,
  starts_with data_prefix (strip_cr l) = true ->
  list_eqb (payload l) done_sentinel = true ->
  classify l = KDone.
Proof. intros l H1 H2. unfold classify. rewrite H1, H2. reflexivity. Qed.


End LineKinds.

(** ** The lines behind the deltas *)

Section FragmentLines.
Context {NS : NumberSemantics}.





End FragmentLines.

(** * The claims *)


Section Claims.
Context {NS : NumberSemantics}.

(** C1: the stream of the two fragment lines for ["Hello"] and [" world"]
    followed by [data: [DONE]], split into chunks in any way, makes
    [streamChat] call [onDelta] with ["Hello"], then with ["Hello world"],
    and return ["Hello world"]. *)
Theorem hello_world_any_chunking : forall chunks,
  List.concat chunks = hello_world_stream ->
  streamChat (mk_response true (Some chunks)) =
  ([txt "Hello"; txt "Hello world"], Returned (txt "Hello world")).
Proof.
  intros chunks H. rewrite streamChat_ok, chunking_invariant.
  - rewrite H. vm_compute. reflexivity.
  - unfold stream_text. rewrite H. vm_compute. reflexivity.
Qed.

(** C2 (amended): when no complete line of the decoded stream follows the
    first [data: [DONE]] line, splitting the bytes into chunks in any way
    gives the same [onDelta] calls and the same returned text as delivering
    them as one chunk. *)
Theorem chunking_invariant_done_last : forall chunks,
  done_is_last (complete_lines (stream_text chunks)) = true ->
  streamChat (mk_response true (Some chunks)) =
  streamChat (mk_response true (Some [List.concat chunks])).
Proof.
  intros chunks H. rewrite !streamChat_ok, chunking_invariant by exact H.
  reflexivity.
Qed.


(** C4: a response that is not [ok], or has no body, makes [streamChat]
    throw ["Chat failed"] without calling [onDelta]. *)
Theorem transport_failure : forall resp,
  resp_ok resp = false \/ resp_body resp = None ->
  streamChat resp = ([], Thrown (txt "Chat failed")).
Proof.
  intros [ok body] H. simpl in H. unfold streamChat. simpl.
  destruct H as [ -> | -> ]; [reflexivity|]. destruct ok; reflexivity.
Qed.

(** C5: when, in the last chunk, a complete [data: ] line whose payload is
    not [[DONE]] and is not JSON is reached after the lines before it,
    the line (its [\r] stripped) is put back with its newline in front of
    the unread rest of the buffer, the rest is not processed, and
    [streamChat] returns the text accumulated up to that line. *)
Theorem malformed_line_pushed_back : forall cs value pre l r a' t',
  buffer (read_loop cs decoder_init loop_init) ++
    snd (decode_stream (fst (decode_stream decoder_init (List.concat cs))) value)
  = pre ++ l ++ NL :: r ->
  drain_all (mk_loop pre (assistantContent (read_loop cs decoder_init loop_init))
                         (deltas (read_loop cs decoder_init loop_init)))
  = (mk_loop [] a' t', NoNewline) ->
  ~ In NL l ->
  starts_with data_prefix (strip_cr l) = true ->
  list_eqb (payload l) done_sentinel = false ->
  json_parse (payload l) = None ->
  read_loop (cs ++ [value]) decoder_init loop_init = mk_loop (strip_cr l ++ NL :: r) a' t' /\
  streamChat (mk_response true (Some (cs ++ [value]))) = (t', Returned a').
Proof.
  intros cs value pre l r a' t' Hbuf Hpre Hl H1 H2 H3.
  assert (Hloop : read_loop (cs ++ [value]) decoder_init loop_init =
                  mk_loop (strip_cr l ++ NL :: r) a' t').
  { rewrite read_loop_app.
    destruct (read_loop cs decoder_init loop_init) as [b a t]. simpl in *.
    destruct (decode_stream _ value) as [d' text]. simpl in Hbuf. rewrite Hbuf.
    rewrite drain_all_app, Hpre. simpl.
    rewrite drain_all_line by exact Hl. rewrite (malformed_kind l H1 H2 H3).
    reflexivity. }
  split; [exact Hloop|]. rewrite streamChat_ok. unfold decode_chunks.
  rewrite Hloop. reflexivity.
Qed.

(** C6: once a complete [data: ] line whose payload is not [[DONE]] and is
    not JSON heads the buffer, no later chunk changes the accumulated text
    or calls [onDelta], whatever follows the line. *)
Theorem malformed_line_stalls : forall cs d l r a t,
  ~ In NL l ->
  starts_with data_prefix (strip_cr l) = true ->
  list_eqb (payload l) done_sentinel = false ->
  json_parse (payload l) = None ->
  assistantContent (read_loop cs d (mk_loop (l ++ NL :: r) a t)) = a /\
  deltas (read_loop cs d (mk_loop (l ++ NL :: r) a t)) = t.
Proof.
  intros cs d l r a t Hl H1 H2 H3.
  apply read_loop_stalled; [exact Hl|exact (malformed_kind l H1 H2 H3)].
Qed.

(** C7: a [data: [DONE]] line ends the processing of the current chunk:
    once the complete lines before it in the buffer ([pre]) have been
    drained, the [DONE] line stops the drain, the lines after it stay in
    the buffer, and the loop goes on reading the next chunks, which are
    decoded and drained as before. *)
Theorem done_line_stops_chunk : forall d st value cs pre l r a' t',
  buffer st ++ snd (decode_stream d value) = pre ++ l ++ NL :: r ->
  drain_all (mk_loop pre (assistantContent st) (deltas st)) = (mk_loop [] a' t', NoNewline) ->
  ~ In NL l ->
  starts_with data_prefix (strip_cr l) = true ->
  list_eqb (payload l) done_sentinel = true ->
  read_loop (value :: cs) d st =
  read_loop cs (fst (decode_stream d value)) (mk_loop r a' t').
Proof.
  intros d [b a t] value cs pre l r a' t' Hbuf Hpre Hl H1 H2. simpl in *.
  destruct (decode_stream d value) as [d' text]. simpl in *. rewrite Hbuf.
  rewrite drain_all_app, Hpre. simpl.
  rewrite drain_all_line by exact Hl. rewrite (done_kind l H1 H2). reflexivity.
Qed.

(** C8: a stream none of whose complete lines carries a fragment (for
    instance only [data: [DONE]], or only lines without the [data: ]
    prefix) makes [streamChat] return the empty string without calling [onDelta]. *)
Theorem no_fragment_stream_empty : forall chunks,
  no_fragment_lines (stream_text chunks) = true ->
  streamChat (mk_response true (Some chunks)) = ([], Returned []).
Proof.
  intros chunks H. rewrite streamChat_ok. unfold decode_chunks.
  destruct (read_loop_no_fragment chunks decoder_init loop_init H) as [-> ->].
  reflexivity.
Qed.


(** C10: the copy of the loop in [handleSend] writes, through
    [setMessages], the same sequence of accumulated texts as the [onDelta]
    calls of [streamChat], and ends with the same accumulated text. *)
Theorem handleSend_matches_streamChat : forall chunks,
  handleSend_stream chunks = decode_chunks chunks.
Proof.
  intros chunks. unfold handleSend_stream, decode_chunks.
  rewrite hs_read_loop_read_loop. reflexivity.
Qed.

End Claims.

(** * Concrete runs *)


(** C2: [data: [DONE]] followed by a fragment line: delivered in two chunks
    the fragment is appended, delivered as one chunk it is not. *)
Lemma chunking_counterexample :
  streamChat (mk_response true (Some [bytes done_line; bytes (frag_line "Hello")])) =
    ([txt "Hello"], Returned (txt "Hello")) /\
  streamChat (mk_response true
    (Some [List.concat [bytes done_line; bytes (frag_line "Hello")]])) =
    ([], Returned []).
Proof. split; vm_compute; reflexivity. Qed.


Lemma hello_world_any_chunking_witness :
  List.concat [firstn 23 hello_world_stream; skipn 23 hello_world_stream] =
    hello_world_stream /\
  streamChat (mk_response true
    (Some [firstn 23 hello_world_stream; skipn 23 hello_world_stream])) =
  ([txt "Hello"; txt "Hello world"], Returned (txt "Hello world")).
Proof.
  split; [vm_compute; reflexivity|].
  apply (hello_world_any_chunking [firstn 23 hello_world_stream; skipn 23 hello_world_stream]).
  vm_compute. reflexivity.
Defined.

Lemma chunking_invariant_done_last_witness :
  done_is_last (complete_lines
    (stream_text [firstn 60 hello_world_stream; skipn 60 hello_world_stream])) = true /\
  streamChat (mk_response true
    (Some [firstn 60 hello_world_stream; skipn 60 hello_world_stream])) =
  streamChat (mk_response true
    (Some [List.concat [firstn 60 hello_world_stream; skipn 60 hello_world_stream]])).
Proof.
  split; [vm_compute; reflexivity|].
  apply (chunking_invariant_done_last
           [firstn 60 hello_world_stream; skipn 60 hello_world_stream]).
  vm_compute. reflexivity.
Defined.

Lemma transport_failure_witness :
  (resp_ok (mk_response false (Some [bytes done_line])) = false \/
   resp_body (mk_response false (Some [bytes done_line])) = None) /\
  streamChat (mk_response false (Some [bytes done_line])) =
    ([], Thrown (txt "Chat failed")).
Proof.
  split; [left; reflexivity|].
  apply (transport_failure (mk_response false (Some [bytes done_line]))).
  left. reflexivity.
Defined.

Lemma malformed_line_pushed_back_witness :
  read_loop ([bytes (frag_line "Hello")] ++
             [bytes ("data: {oops" ++ nl_string ++ frag_line " world")])
            decoder_init loop_init =
    mk_loop (strip_cr (txt "data: {oops") ++ NL :: txt (frag_line " world"))
            (txt "Hello") [txt "Hello"] /\
  streamChat (mk_response true
    (Some ([bytes (frag_line "Hello")] ++
           [bytes ("data: {oops" ++ nl_string ++ frag_line " world")]))) =
    ([txt "Hello"], Returned (txt "Hello")).
Proof.
  apply (malformed_line_pushed_back [bytes (frag_line "Hello")]
           (bytes ("data: {oops" ++ nl_string ++ frag_line " world"))
           [] (txt "data: {oops") (txt (frag_line " world"))
           (txt "Hello") [txt "Hello"]).
  - vm_compute. reflexivity.
  - vm_compute. reflexivity.
  - apply index_of_none. reflexivity.
  - reflexivity.
  - reflexivity.
  - reflexivity.
Defined.

Lemma malformed_line_stalls_witness :
  assistantContent (read_loop [bytes (frag_line "x")] decoder_init
                      (mk_loop (txt "data: {oops" ++ NL :: []) [] [])) = [] /\
  deltas (read_loop [bytes (frag_line "x")] decoder_init
            (mk_loop (txt "data: {oops" ++ NL :: []) [] [])) = [].
Proof.
  apply (malformed_line_stalls [bytes (frag_line "x")] decoder_init
           (txt "data: {oops") [] [] []).
  - apply index_of_none. reflexivity.
  - reflexivity.
  - reflexivity.
  - reflexivity.
Defined.

Lemma done_line_stops_chunk_witness :
  read_loop [bytes (frag_line "Hello" ++ done_line ++ frag_line " x"); bytes (frag_line " world")]
            decoder_init loop_init =
  read_loop [bytes (frag_line " world")]
            (fst (decode_stream decoder_init (bytes (frag_line "Hello" ++ done_line ++ frag_line " x"))))
            (mk_loop (txt (frag_line " x")) (txt "Hello") [txt "Hello"]) /\
  read_loop [bytes (frag_line "Hello" ++ done_line ++ frag_line " x"); bytes (frag_line " world")]
            decoder_init loop_init =
  mk_loop [] (txt "Hello x world") [txt "Hello"; txt "Hello x"; txt "Hello x world"].
Proof.
  split; [|vm_compute; reflexivity].
  apply (done_line_stops_chunk decoder_init loop_init
           (bytes (frag_line "Hello" ++ done_line ++ frag_line " x")) [bytes (frag_line " world")]
           (txt (frag_line "Hello")) (txt "data: [DONE]") (txt (frag_line " x"))
           (txt "Hello") [txt "Hello"]).
  - vm_compute. reflexivity.
  - vm_compute. reflexivity.
  - apply index_of_none. reflexivity.
  - reflexivity.
  - reflexivity.
Defined.

Lemma no_fragment_stream_empty_witness :
  no_fragment_lines (stream_text [bytes (": keep-alive" ++ nl_string ++ done_line)]) = true /\
  streamChat (mk_response true (Some [bytes (": keep-alive" ++ nl_string ++ done_line)])) =
    ([], Returned []).
Proof.
  split; [vm_compute; reflexivity|].
  apply (no_fragment_stream_empty [bytes (": keep-alive" ++ nl_string ++ done_line)]).
  vm_compute. reflexivity.
Defined.

Example json_parse_ex :
  json_parse (txt ("{" ++ dq ++ "a" ++ dq ++ ":[1,true,null]," ++ dq ++ "b" ++ dq ++ ":" ++
                   dq ++ "xA" ++ dq ++ "}")) =
  Some (JObj [(txt "a", JArr [JNum (txt "1"); JBool true; JNull]);
              (txt "b", JStr [120; 65])]).
Proof. reflexivity. Qed.
(** * Properties of the handlers *)

(** ** Helpers *)

Lemma list_eqb_eq : forall a b, list_eqb a b = true <-> a = b.
Proof.
  induction a as [|x a IH]; intros [|y b]; simpl; split; intros H;
    try reflexivity; try discriminate.
  - apply andb_prop in H as [H1 H2]. apply Z.eqb_eq in H1. apply IH in H2.
    subst. reflexivity.
  - injection H as -> ->. rewrite Z.eqb_refl. simpl. apply IH. reflexivity.
Qed.

Lemma list_eqb_refl : forall a, list_eqb a a = true.
Proof. intros a. apply list_eqb_eq. reflexivity. Qed.

Lemma list_eqb_false : forall a b, list_eqb a b = false <-> a <> b.
Proof.
  intros a b. rewrite <- list_eqb_eq. destruct (list_eqb a b); split;
    congruence.
Qed.

Lemma js_empty_false : forall s, js_empty s = false <-> s <> [].
Proof. intros [|x s]; simpl; split; congruence. Qed.

Lemma js_empty_true : forall s, js_empty s = true <-> s = [].
Proof. intros [|x s]; simpl; split; congruence. Qed.

Lemma map_index_id : forall {A : Type} (f : A -> nat -> A) xs i,
  (forall x k, (i <= k < i + List.length xs)%nat -> f x k = x) ->
  map_index f i xs = xs.
Proof.
  intros A f xs. induction xs as [|x xs IH]; intros i H; simpl; [reflexivity|].
  rewrite H by (simpl; lia). f_equal. apply IH. intros y k Hk. apply H.
  simpl. lia.
Qed.

Lemma map_index_snoc : forall {A B : Type} (f : A -> nat -> B) xs x i,
  map_index f i (xs ++ [x]) = map_index f i xs ++ [f x (i + List.length xs)%nat].
Proof.
  intros A B f xs. induction xs as [|y xs IH]; intros x i; simpl.
  - rewrite Nat.add_0_r. reflexivity.
  - rewrite IH. replace (S i + List.length xs)%nat with (i + S (List.length xs))%nat
      by lia. reflexivity.
Qed.

Lemma last_message_snoc : forall pre m, last_message (pre ++ [m]) = Some m.
Proof.
  intros pre m. unfold last_message.
  destruct (pre ++ [m]) as [|y l] eqn:E; [destruct pre; discriminate|].
  rewrite <- E, length_app. simpl.
  replace (List.length pre + 1 - 1)%nat with (List.length pre) by lia.
  rewrite nth_error_app2, Nat.sub_diag by lia. reflexivity.
Qed.

Lemma upsert_assistant_nil : forall c,
  upsert_assistant c [] = [mk_msg None role_assistant c].
Proof. reflexivity. Qed.

Lemma upsert_assistant_snoc_assistant : forall c pre m,
  role m = role_assistant ->
  upsert_assistant c (pre ++ [m]) = pre ++ [mk_msg (msg_id m) (role m) c].
Proof.
  intros c pre m H. unfold upsert_assistant. rewrite last_message_snoc, H,
    list_eqb_refl, map_index_snoc, length_app. simpl.
  rewrite Nat.add_sub, Nat.eqb_refl, H. f_equal.
  apply map_index_id. intros x k Hk.
  destruct (Nat.eqb_spec k (List.length pre)); [lia|reflexivity].
Qed.

Lemma upsert_assistant_snoc_other : forall c pre m,
  role m <> role_assistant ->
  upsert_assistant c (pre ++ [m]) = pre ++ [m; mk_msg None role_assistant c].
Proof.
  intros c pre m H. unfold upsert_assistant. rewrite last_message_snoc.
  apply list_eqb_false in H. rewrite H, <- app_assoc. reflexivity.
Qed.

(** A later [onDelta] write replaces an earlier one. *)
Lemma upsert_assistant_twice : forall c c' prev,
  upsert_assistant c (upsert_assistant c' prev) = upsert_assistant c prev.
Proof.
  intros c c' prev. destruct prev as [|x l] using rev_ind.
  - rewrite upsert_assistant_nil, upsert_assistant_nil.
    rewrite <- (app_nil_l [_]), upsert_assistant_snoc_assistant by reflexivity.
    reflexivity.
  - destruct (list_eqb (role x) role_assistant) eqn:E.
    + apply list_eqb_eq in E.
      rewrite !upsert_assistant_snoc_assistant by (simpl; exact E). reflexivity.
    + apply list_eqb_false in E.
      rewrite upsert_assistant_snoc_other by exact E.
      replace (l ++ [x; mk_msg None role_assistant c'])
        with ((l ++ [x]) ++ [mk_msg None role_assistant c'])
        by (rewrite <- app_assoc; reflexivity).
      rewrite upsert_assistant_snoc_assistant by reflexivity.
      rewrite upsert_assistant_snoc_other by exact E.
      rewrite <- app_assoc. reflexivity.
Qed.

Lemma last_messages_app : forall a b cur,
  last_messages (a ++ b) cur = last_messages b (last_messages a cur).
Proof.
  induction a as [|e a IH]; intros b cur; simpl; [reflexivity|].
  destruct e; apply IH.
Qed.

Lemma last_messages_updates : forall vs prev cur,
  last_messages (map SetMessages (message_updates vs prev)) cur =
  match rev vs with
  | [] => cur
  | v :: _ => Some (upsert_assistant v prev)
  end.
Proof.
  induction vs as [|v vs IH]; intros prev cur; simpl; [reflexivity|].
  rewrite IH. destruct (rev vs) as [|w ws]; simpl; [reflexivity|].
  rewrite upsert_assistant_twice. reflexivity.
Qed.

Lemma last_running_concat : forall fs acc,
  match rev (running_concat acc fs) with
  | [] => fs = []
  | x :: _ => x = acc ++ List.concat fs
  end.
Proof.
  intros fs. induction fs as [|f fs IH] using rev_ind; intros acc; [reflexivity|].
  rewrite running_concat_snoc, rev_app_distr. simpl.
  rewrite concat_app. simpl. rewrite app_nil_r, app_assoc. reflexivity.
Qed.

Section HandlerFacts.
Context {NS : NumberSemantics}.

Lemma streamChat_returned : forall resp calls a,
  streamChat resp = (calls, Returned a) ->
  exists fs, calls = running_concat [] fs /\ a = List.concat fs.
Proof.
  intros [ok body] calls a H. unfold streamChat in H. simpl in H.
  destruct ok; [|discriminate]. destruct body as [chunks|]; [|discriminate].
  injection H as <- <-.
  assert (H0 : running_state loop_init) by (exists []; split; reflexivity).
  destruct (read_loop_running chunks decoder_init loop_init H0) as (fs & Ht & Ha).
  exists fs. split; assumption.
Qed.

(** The last list the [onDelta] calls of a successful stream write. *)
Lemma last_messages_reply : forall resp calls a prev cur,
  streamChat resp = (calls, Returned a) ->
  last_messages (map SetMessages (message_updates calls prev)) cur =
  match calls with
  | [] => cur
  | _ => Some (upsert_assistant a prev)
  end.
Proof.
  intros resp calls a prev cur H.
  destruct (streamChat_returned resp calls a H) as (fs & -> & ->).
  rewrite last_messages_updates.
  pose proof (last_running_concat fs []) as Hl.
  destruct (rev (running_concat [] fs)) as [|x xs] eqn:E.
  - subst fs. reflexivity.
  - simpl in Hl. subst x.
    destruct (running_concat [] fs) eqn:E2; [discriminate|reflexivity].
Qed.

Lemma streamChat_failed : forall resp,
  resp_ok resp = false \/ resp_body resp = None ->
  streamChat resp = ([], Thrown (txt "Chat failed")).
Proof.
  intros [ok body] H. simpl in H. unfold streamChat. simpl.
  destruct H as [ -> | -> ]; [reflexivity|]. destruct ok; reflexivity.
Qed.

End HandlerFacts.

Lemma role_user_not_assistant : role_user <> role_assistant.
Proof. vm_compute. congruence. Qed.

Lemma access_gate_dialog : forall pr e, access_gate pr = Some e ->
  e = ShowSubDialog \/ e = ShowBlockedDialog.
Proof.
  intros [[acc sub]|] e H; simpl in H; [|discriminate].
  destruct sub; destruct acc; simpl in H; try discriminate; injection H as <-; auto.
Qed.

Lemma access_gate_none : forall pr, access_gate pr = None ->
  forall p, pr = Some p -> subscription_active p = true /\ access_enabled p = true.
Proof.
  intros [[acc sub]|] H p Hp; [|discriminate]. injection Hp as <-.
  simpl in H. destruct sub, acc; simpl in H; try discriminate. split; reflexivity.
Qed.

(** Peels off the effects of a concrete trace that cannot be the one
    looked for. *)
Ltac drop_effects H :=
  repeat match type of H with
  | In _ (_ ++ _) => apply in_app_or in H; destruct H as [H|H]
  | In _ (map SetMessages _) =>
      apply in_map_iff in H; let x := fresh in destruct H as (x & H & _);
      discriminate H
  | In _ [] => destruct H
  | In _ (_ :: _) => destruct H as [H|H]; [try discriminate H|]
  end.

(** ** [onDelta] updates of the message list *)

(** X1: the message-list updater of [onDelta] overwrites: applying it with
    [c'] and then with [c] gives the same list as applying it with [c]
    alone, so the list shown only depends on the last value written. *)
Theorem onDelta_updater_last_wins : forall c c' prev,
  upsert_assistant c (upsert_assistant c' prev) = upsert_assistant c prev.
Proof.
  intros c c' prev. destruct prev as [|x l] using rev_ind.
  - rewrite upsert_assistant_nil, upsert_assistant_nil.
    rewrite <- (app_nil_l [_]), upsert_assistant_snoc_assistant by reflexivity.
    reflexivity.
  - destruct (list_eqb (role x) role_assistant) eqn:E.
    + apply list_eqb_eq in E.
      rewrite !upsert_assistant_snoc_assistant by (simpl; exact E). reflexivity.
    + apply list_eqb_false in E.
      rewrite upsert_assistant_snoc_other by exact E.
      replace (l ++ [x; mk_msg None role_assistant c'])
        with ((l ++ [x]) ++ [mk_msg None role_assistant c'])
        by (rewrite <- app_assoc; reflexivity).
      rewrite upsert_assistant_snoc_assistant by reflexivity.
      rewrite upsert_assistant_snoc_other by exact E.
      rewrite <- app_assoc. reflexivity.
Qed.

Section HandlerClaims.
Context {NS : NumberSemantics}.

(** X2: when [handleCaseSend] passes its guards and the stream returns
    [a] after the [onDelta] calls [calls], the message list ends with the
    user's trimmed message followed, if [onDelta] was called at all, by one
    assistant message holding [a]; the assistant message is stored exactly
    when [a] is not empty, and the case's [updated_at] is written. *)
Theorem handleCaseSend_reply : forall pr input ac msgs resp calls a,
  js_trim input <> [] -> ac <> [] -> access_gate pr = None ->
  streamChat resp = (calls, Returned a) ->
  let tr := handleCaseSend pr input false (Some ac) msgs resp in
  last_messages tr None =
    Some (msgs ++ mk_msg None role_user (js_trim input) ::
          match calls with [] => [] | _ => [mk_msg None role_assistant a] end) /\
  (In (InsertMessage ac role_assistant a) tr <-> a <> []) /\
  In (TouchCase ac) tr.
Proof.
  intros pr input ac msgs resp calls a Hin Hac Hg Hs tr.
  set (u := mk_msg None role_user (js_trim input)).
  assert (Htr : tr = RefreshProfile ::
    ([SetMessages (msgs ++ [u]); SetInput []; SetSending true;
      InsertMessage ac role_user (js_trim input); ChatRequest (chat_history (msgs ++ [u]))] ++
     map SetMessages (message_updates calls (msgs ++ [u])) ++
     ((if js_empty a then [] else [InsertMessage ac role_assistant a]) ++
      [TouchCase ac; LoadCases; SetSending false]))).
  { unfold tr, handleCaseSend, opt_truthy.
    apply js_empty_false in Hin, Hac. rewrite Hin, Hac, Hg, Hs. reflexivity. }
  split; [|split].
  - rewrite Htr. cbn [last_messages app]. rewrite last_messages_app.
    rewrite (last_messages_reply resp calls a) by exact Hs.
    destruct (js_empty a); cbn [last_messages app].
    + destruct calls; [reflexivity|].
      rewrite upsert_assistant_snoc_other by exact role_user_not_assistant.
      reflexivity.
    + destruct calls; [reflexivity|].
      rewrite upsert_assistant_snoc_other by exact role_user_not_assistant.
      reflexivity.
  - rewrite Htr. destruct (js_empty a) eqn:Ea; split; intros H.
    + exfalso. drop_effects H.
    + apply js_empty_false in H. congruence.
    + apply js_empty_false. exact Ea.
    + right. apply in_or_app. right. apply in_or_app. right.
      apply in_or_app. left. left. reflexivity.
  - rewrite Htr. right. apply in_or_app. right. apply in_or_app. right.
    apply in_or_app. right. left. reflexivity.
Qed.

(** X3: [handleCaseSend] sends a chat request or stores a message only
    when the trimmed input is not empty, no send is in progress, a case is
    open, and the profile it rendered with is either missing or has both
    its subscription and its access enabled. *)
Theorem handleCaseSend_guard : forall pr input sending active msgs resp e,
  In e (handleCaseSend pr input sending active msgs resp) ->
  match e with ChatRequest _ | InsertMessage _ _ _ => True | _ => False end ->
  js_trim input <> [] /\ sending = false /\ opt_truthy active = true /\
  (forall p, pr = Some p -> subscription_active p = true /\ access_enabled p = true).
Proof.
  intros pr input sending active msgs resp e Hin He. unfold handleCaseSend in Hin.
  destruct (js_empty (js_trim input)) eqn:E1; [destruct Hin|].
  destruct sending; [destruct Hin|].
  destruct (opt_truthy active) eqn:E3; [|destruct Hin].
  cbn [orb negb] in Hin.
  destruct (access_gate pr) as [d|] eqn:Eg.
  - destruct Hin as [<-|[<-|[]]]; [contradiction|].
    destruct (access_gate_dialog pr d Eg) as [->| ->]; contradiction.
  - apply js_empty_false in E1. repeat split; try assumption; try reflexivity;
      apply (access_gate_none pr Eg); assumption.
Qed.

(** X4: when the chat request fails ([!resp.ok] or no body),
    [handleCaseSend] has stored the user's message but stores no assistant
    message and does not touch the case: it logs the error, shows the
    error toast and clears the sending flag. *)
Theorem handleCaseSend_transport_failure : forall pr input ac msgs resp,
  js_trim input <> [] -> ac <> [] -> access_gate pr = None ->
  resp_ok resp = false \/ resp_body resp = None ->
  let allMsgs := msgs ++ [mk_msg None role_user (js_trim input)] in
  handleCaseSend pr input false (Some ac) msgs resp =
  [RefreshProfile; SetMessages allMsgs; SetInput []; SetSending true;
   InsertMessage ac role_user (js_trim input); ChatRequest (chat_history allMsgs);
   ConsoleError; Toast (txt "Error") (txt "Failed to get AI response");
   SetSending false].
Proof.
  intros pr input ac msgs resp Hin Hac Hg Hf allMsgs.
  unfold handleCaseSend, opt_truthy. apply js_empty_false in Hin, Hac.
  rewrite Hin, Hac, Hg, (streamChat_failed resp Hf). reflexivity.
Qed.

(** X5: the [handleSend] of [AuthPage.tsx], with its inline copy of the
    stream loop, performs exactly the same effects as [handleCaseSend] of
    [UserDashboard.tsx] on every input, profile and response. *)
Theorem handleSend_same_effects : forall pr input sending active msgs resp,
  handleSend pr input sending active msgs resp =
  handleCaseSend pr input sending active msgs resp.
Proof.
  intros pr input sending active msgs resp. unfold handleSend, handleCaseSend.
  destruct (js_empty (js_trim input) || sending || negb (opt_truthy active));
    [reflexivity|].
  destruct (access_gate pr); [reflexivity|].
  destruct resp as [[|] [chunks|]]; try reflexivity.
  cbn [resp_ok resp_body]. unfold handleSend_stream.
  rewrite hs_read_loop_read_loop. reflexivity.
Qed.

(** X6: "Explain in Detail" on message [i] sends exactly one chat request,
    holding the messages up to and including [i] followed by the request
    "Explain in Detail" (later messages are not sent), while the answer is
    shown after the whole message list, behind the request. *)
Theorem handleExplainInDetail_history : forall i ct msgs gms ac uid pr resp m calls a,
  let ms := match ct with CaseChat => msgs | GeneralChat => gms end in
  nth_error ms i = Some m -> content m <> [] -> access_gate pr = None ->
  streamChat resp = (calls, Returned a) ->
  let detailMsg := mk_msg None role_user (txt "Explain in Detail") in
  let tr := handleExplainInDetail i ct msgs gms ac uid pr resp in
  (forall h, In (ChatRequest h) tr <->
             h = chat_history (firstn (S i) ms ++ [detailMsg])) /\
  last_messages tr None =
    Some (ms ++ detailMsg ::
          match calls with [] => [] | _ => [mk_msg None role_assistant a] end).
Proof.
  intros i ct msgs gms ac uid pr resp m calls a ms Hm Hc Hg Hs detailMsg tr.
  set (ins := match ct with
              | CaseChat => if opt_truthy ac
                            then [InsertMessage (match ac with Some x => x | None => [] end)
                                    role_user (content detailMsg)]
                            else []
              | GeneralChat => [InsertGeneralMessage uid role_user (content detailMsg)]
              end).
  set (fin := (if js_empty a then []
               else match ct with
                    | CaseChat =>
                        if opt_truthy ac
                        then [InsertMessage (match ac with Some x => x | None => [] end)
                                role_assistant a;
                              TouchCase (match ac with Some x => x | None => [] end)]
                        else []
                    | GeneralChat => [InsertGeneralMessage uid role_assistant a]
                    end) ++ [SetSending false]).
  assert (Htr : tr = RefreshProfile ::
    [SetMessages (ms ++ [detailMsg]); SetSending true] ++ ins ++
    ChatRequest (chat_history (firstn (S i) ms ++ [detailMsg])) ::
    map SetMessages (message_updates calls (ms ++ [detailMsg])) ++ fin).
  { unfold tr, handleExplainInDetail. fold ms. rewrite Hm.
    apply js_empty_false in Hc. cbn [opt_truthy]. rewrite Hc. cbn [negb].
    rewrite Hg, Hs. reflexivity. }
  assert (Hins : forall h, ~ In (ChatRequest h) ins).
  { intros h H. unfold ins in H. destruct ct; [destruct (opt_truthy ac)|];
      drop_effects H. }
  assert (Hfin : forall h, ~ In (ChatRequest h) fin).
  { intros h H. unfold fin in H.
    destruct (js_empty a); [|destruct ct; [destruct (opt_truthy ac)|]];
      drop_effects H. }
  assert (Hset : forall cur, last_messages fin cur = cur).
  { intros cur. unfold fin.
    destruct (js_empty a); [|destruct ct; [destruct (opt_truthy ac)|]];
      reflexivity. }
  assert (Hset' : forall cur, last_messages ins cur = cur).
  { intros cur. unfold ins. destruct ct; [destruct (opt_truthy ac)|]; reflexivity. }
  split.
  - intros h. rewrite Htr. split; intros H.
    + destruct H as [H|H]; [discriminate H|].
      apply in_app_or in H as [H|H]; [drop_effects H|].
      apply in_app_or in H as [H|H]; [exfalso; exact (Hins h H)|].
      destruct H as [H|H]; [injection H as H; symmetry; exact H|].
      apply in_app_or in H as [H|H].
      * apply in_map_iff in H as (x & H & _). discriminate H.
      * exfalso. exact (Hfin h H).
    + right. apply in_or_app. right. apply in_or_app. right. left.
      rewrite H. reflexivity.
  - rewrite Htr. cbn [last_messages app]. rewrite last_messages_app, Hset'.
    cbn [last_messages]. rewrite last_messages_app, Hset.
    rewrite (last_messages_reply resp calls a) by exact Hs.
    destruct calls; [reflexivity|].
    rewrite upsert_assistant_snoc_other by exact role_user_not_assistant.
    reflexivity.
Qed.

End HandlerClaims.

(** ** The case list *)

(** [deleteCase] is its call followed at once by its resumption. *)
Lemma deleteCase_resume_now : forall id st,
  deleteCase id st = ([DeleteCaseRow id], deleteCase_resume (mk_pending id (activeCase st)) st).
Proof.
  intros id st. unfold deleteCase, deleteCase_resume. cbn [pd_id pd_active].
  destruct (match activeCase st with Some a => list_eqb a id | None => false end); reflexivity.
Qed.

Lemma option_list_eq_dec : forall x y : option (list Z), {x = y} + {x <> y}.
Proof. decide equality. apply list_eq_dec, Z.eq_dec. Qed.

Lemma sidebar_step_ok : forall s s',
  sidebar_step s s' -> ~ reopens_pending s s' -> sidebar_ok s -> sidebar_ok s'.
Proof.
  intros s s' Hs Hr [Hl Hp]. destruct Hs; cbn [dash pending] in *.
  - split; [exact Hl|]. intros q Hq E. apply in_app_or in Hq as [Hq|[<-|[]]].
    + exact (Hp q Hq E).
    + exact E.
  - unfold deleteCase_resume.
    destruct (match pd_active p with Some a => list_eqb a (pd_id p) | None => false end) eqn:C.
    + split; [exact I|]. intros q _ E. discriminate E.
    + split.
      * unfold active_listed in *. cbn [activeCase cases] in *.
        destruct (activeCase d) as [a|] eqn:A; [|exact I].
        destruct Hl as (c & Hc & Ec). exists c. split; [|exact Ec].
        apply filter_In. split; [exact Hc|]. apply negb_true_iff, list_eqb_false.
        intros E. rewrite Ec in E. subst a.
        assert (Hpp : pd_active p = Some (pd_id p)).
        { apply Hp; [apply in_or_app; right; left; reflexivity|rewrite E; reflexivity]. }
        rewrite Hpp, list_eqb_refl in C. discriminate C.
      * intros q Hq E. apply Hp; [|exact E].
        apply in_app_or in Hq as [Hq|Hq]; apply in_or_app; [left|right; right]; exact Hq.
  - split; [|exact Hp]. unfold active_listed, renameCase_resume in *.
    cbn [dash activeCase cases] in *.
    destruct (activeCase d) as [a|]; [|exact I].
    destruct Hl as (c & Hc & Ec).
    exists (if list_eqb (case_id c) id then mk_case (case_id c) t (updated_at c) else c).
    split.
    + apply in_map_iff. exists c. auto.
    + destruct (list_eqb (case_id c) id); exact Ec.
  - split; [exact I|]. intros q _ E. discriminate E.
  - split.
    + exists c. auto.
    + intros q Hq E. cbn [activeCase openCase_start] in E.
      destruct (option_list_eq_dec (activeCase d) (Some (pd_id q))) as [A|A].
      * exact (Hp q Hq A).
      * exfalso. apply Hr. exists q. auto.
  - split; [exact Hl|exact Hp].
  - split; [exact Hl|exact Hp].
Qed.

(** X7: from a dashboard whose open case is listed, any interleaving of
    the sidebar operations (deleting a case, with its database call
    pending for any number of steps; renaming a case; starting a new case;
    opening a listed case and loading its analysis and messages) keeps the
    open case among the listed cases, provided no case is opened while a
    delete of it is still pending. *)
Theorem sidebar_keeps_active_listed : forall d s',
  active_listed d ->
  clos_refl_trans_1n sidebar
    (fun s s'' => sidebar_step s s'' /\ ~ reopens_pending s s'') (mk_sidebar d []) s' ->
  active_listed (dash s').
Proof.
  intros d s' Hd Hrun.
  assert (Hok : sidebar_ok (mk_sidebar d [])) by (split; [exact Hd|intros p []]).
  revert Hok. induction Hrun as [s|s s1 s2 [Hs Hr] _ IH]; intros Hok.
  - exact (proj1 Hok).
  - apply IH. exact (sidebar_step_ok s s1 Hs Hr Hok).
Qed.

(** X21: opening a listed case that is not open while its delete is
    pending leaves it open but no longer listed: [deleteCase] filters the
    case out of the latest list but compares [id] with the [activeCase]
    its closure captured when clicked, so it does not close the case. *)
Theorem deleteCase_open_race : forall d c,
  In c (cases d) -> activeCase d <> Some (case_id c) ->
  let s' := mk_sidebar (deleteCase_resume (mk_pending (case_id c) (activeCase d))
                          (openCase_start (case_id c) d)) [] in
  clos_refl_trans_1n sidebar sidebar_step (mk_sidebar d []) s' /\
  activeCase (dash s') = Some (case_id c) /\ ~ active_listed (dash s').
Proof.
  intros d c Hc Ha s'.
  assert (C : match activeCase d with
              | Some a => list_eqb a (case_id c) | None => false end = false).
  { destruct (activeCase d) as [a|]; [|reflexivity].
    apply list_eqb_false. intros E. apply Ha. rewrite E. reflexivity. }
  split; [|split].
  - apply (rt1n_trans _ _ _ (mk_sidebar d [mk_pending (case_id c) (activeCase d)]));
      [apply (sb_delete_call (case_id c) d [])|].
    apply (rt1n_trans _ _ _ (mk_sidebar (openCase_start (case_id c) d)
                                        [mk_pending (case_id c) (activeCase d)]));
      [apply sb_open_call; exact Hc|].
    apply (rt1n_trans _ _ _ s'); [|apply rt1n_refl].
    apply (sb_delete_return [] _ []).
  - unfold s', deleteCase_resume. cbn [pd_active pd_id]. rewrite C. reflexivity.
  - unfold s', deleteCase_resume, active_listed. cbn [pd_active pd_id]. rewrite C.
    cbn [activeCase cases openCase_start dash]. intros (c' & Hc' & E).
    apply filter_In in Hc' as [_ Hf]. rewrite E, list_eqb_refl in Hf. discriminate Hf.
Qed.

(** X8: [deleteCase id] issues the delete of the row [id] and removes
    exactly the cases with that id from the list, keeping the others in
    order; if that case was open, it closes it (no active case, empty view,
    no messages, no analysis), otherwise the open case and its messages
    stay as they were. *)
Theorem deleteCase_effect : forall id st,
  let '(es, st') := deleteCase id st in
  es = [DeleteCaseRow id] /\
  cases st' = filter (fun c => negb (list_eqb (case_id c) id)) (cases st) /\
  (forall c, In c (cases st') <-> In c (cases st) /\ case_id c <> id) /\
  (activeCase st = Some id ->
   activeCase st' = None /\ view st' = ViewEmpty /\ messages st' = [] /\
   activeCaseAnalysis st' = None) /\
  (activeCase st <> Some id ->
   activeCase st' = activeCase st /\ view st' = view st /\
   messages st' = messages st).
Proof.
  intros id st. unfold deleteCase.
  assert (Hin : forall c, In c (filter (fun c => negb (list_eqb (case_id c) id)) (cases st))
                          <-> In c (cases st) /\ case_id c <> id).
  { intros c. rewrite filter_In, negb_true_iff, list_eqb_false. reflexivity. }
  destruct (activeCase st) as [a|] eqn:Ea.
  - destruct (list_eqb a id) eqn:E.
    + apply list_eqb_eq in E. subst a. cbn.
      split; [reflexivity|]. split; [reflexivity|]. split; [exact Hin|].
      split; [intros _; repeat split|]. intros Hne. exfalso. apply Hne. reflexivity.
    + apply list_eqb_false in E. cbn.
      split; [reflexivity|]. split; [reflexivity|]. split; [exact Hin|].
      split; [intros Heq; injection Heq as Heq; contradiction|]. intros _.
      repeat split.
  - cbn. split; [reflexivity|]. split; [reflexivity|]. split; [exact Hin|].
    split; [discriminate|]. intros _. repeat split.
Qed.

(** X9: [renameCase id] with a title that trims to the empty string does
    nothing (no write, no change); in every case it keeps the ids and the
    order of the listed cases, and gives every case with that id the
    trimmed title. *)
Theorem renameCase_effect : forall id st,
  let '(es, st') := renameCase id st in
  (js_trim (editTitle st) = [] -> es = [] /\ st' = st) /\
  map case_id (cases st') = map case_id (cases st) /\
  (js_trim (editTitle st) <> [] ->
   es = [UpdateCaseTitle id (js_trim (editTitle st))] /\
   forall c, In c (cases st') -> case_id c = id -> title c = js_trim (editTitle st)).
Proof.
  intros id st. unfold renameCase. cbv zeta.
  destruct (js_empty (js_trim (editTitle st))) eqn:E.
  - apply js_empty_true in E. cbn.
    split; [intros _; split; reflexivity|]. split; [reflexivity|].
    intros Hne. contradiction.
  - apply js_empty_false in E. split; [intros H; contradiction|]. split.
    + cbn. rewrite map_map. apply map_ext. intros c.
      destruct (list_eqb (case_id c) id); reflexivity.
    + intros _. split; [reflexivity|]. intros c Hc Hid. cbn in Hc.
      apply in_map_iff in Hc as (c0 & <- & _).
      destruct (list_eqb (case_id c0) id) eqn:E0; [reflexivity|].
      apply list_eqb_false in E0. contradiction.
Qed.

(** ** The sign-in page *)

Lemma at_sign_eq : at_sign = [64].
Proof. reflexivity. Qed.

Lemma includes_single : forall x s, includes [x] s = true <-> In x s.
Proof.
  intros x s. induction s as [|y s IH]; simpl; [split; [discriminate|tauto]|].
  rewrite andb_true_r, orb_true_iff, IH, Z.eqb_eq. split; intros [H|H]; auto.
Qed.

Lemma In_drop_space : forall x s, In x s -> js_is_space x = false ->
  In x (drop_space s).
Proof.
  intros x s. induction s as [|y s IH]; intros H Hx; [destruct H|]. simpl.
  destruct H as [<-|H].
  - rewrite Hx. left. reflexivity.
  - destruct (js_is_space y); [apply IH; assumption|right; exact H].
Qed.

Lemma In_js_trim : forall x s, In x s -> js_is_space x = false -> In x (js_trim s).
Proof.
  intros x s H Hx. unfold js_trim. apply -> in_rev. apply In_drop_space; [|exact Hx].
  apply -> in_rev. apply In_drop_space; assumption.
Qed.

Lemma js_trim_spaces : forall s, forallb js_is_space s = true -> js_trim s = [].
Proof. intros s H. unfold js_trim. rewrite (drop_space_all s H). reflexivity. Qed.

(** What [handleSignup] checked before calling [signUp]. *)
Lemma signUp_called_inv : forall name email phone pw cpw err e p n ph,
  In (CallSignUp e p n ph) (handleSignup name email phone pw cpw err) ->
  js_trim name <> [] /\ js_trim email <> [] /\ js_trim phone <> [] /\
  includes at_sign email = true /\ pw = cpw /\ (6 <= List.length pw)%nat /\
  e = js_trim email /\ p = pw /\ n = js_trim name /\ ph = js_trim phone.
Proof.
  intros name email phone pw cpw err e p n ph H. unfold handleSignup in H.
  destruct (js_empty (js_trim name) || js_empty (js_trim email) ||
            js_empty (js_trim phone) || js_empty pw || js_empty cpw) eqn:E1;
    [drop_effects H|].
  destruct (includes at_sign email) eqn:E2; cbn [negb] in H; [|drop_effects H].
  destruct (list_eqb pw cpw) eqn:E3; cbn [negb] in H; [|drop_effects H].
  destruct (List.length pw <? 6)%nat eqn:E4; [drop_effects H|].
  apply in_app_or in H as [H|H].
  - destruct H as [H|[H|H]]; [discriminate H| |drop_effects H].
    injection H as <- <- <- <-. repeat rewrite orb_false_iff in E1.
    destruct E1 as ((((H1 & H2) & H3) & _) & _).
    apply js_empty_false in H1, H2, H3. apply list_eqb_eq in E3.
    apply Nat.ltb_ge in E4. repeat split; assumption.
  - destruct (opt_truthy err); drop_effects H.
Qed.

(** X10: [handleSignup] calls [signUp] exactly when the trimmed name,
    e-mail and phone are not empty, the e-mail as typed contains [@], the
    two passwords are equal and the password has at least 6 code units;
    it passes the trimmed e-mail, name and phone and the password as typed
    (not trimmed). *)
Theorem handleSignup_calls_signUp : forall name email phone pw cpw err e p n ph,
  In (CallSignUp e p n ph) (handleSignup name email phone pw cpw err) <->
  js_trim name <> [] /\ js_trim email <> [] /\ js_trim phone <> [] /\
  includes at_sign email = true /\ pw = cpw /\ (6 <= List.length pw)%nat /\
  e = js_trim email /\ p = pw /\ n = js_trim name /\ ph = js_trim phone.
Proof.
  intros name email phone pw cpw err e p n ph. split; [apply signUp_called_inv|].
  intros (H1 & H2 & H3 & H4 & <- & H6 & -> & -> & -> & ->).
  unfold handleSignup.
  apply js_empty_false in H1, H2, H3.
  assert (Hp : js_empty pw = false) by (destruct pw; [simpl in H6; lia|reflexivity]).
  rewrite H1, H2, H3, Hp, H4, list_eqb_refl.
  apply Nat.ltb_ge in H6. rewrite H6. cbn [orb negb].
  right. left. reflexivity.
Qed.

(** X11: a password made only of white space, at least 6 code units long,
    is accepted by [handleSignup] (which does not trim it), while
    [handleLogin] refuses it without calling [signIn]. *)
Theorem blank_password_signup_not_login : forall name email phone pw err r,
  js_trim name <> [] -> js_trim email <> [] -> js_trim phone <> [] ->
  includes at_sign email = true -> (6 <= List.length pw)%nat ->
  forallb js_is_space pw = true ->
  In (CallSignUp (js_trim email) pw (js_trim name) (js_trim phone))
     (handleSignup name email phone pw pw err) /\
  handleLogin email pw r = [].
Proof.
  intros name email phone pw err r H1 H2 H3 H4 H5 H6. split.
  - unfold handleSignup. apply js_empty_false in H1, H2, H3.
    assert (Hp : js_empty pw = false) by (destruct pw; [simpl in H5; lia|reflexivity]).
    rewrite H1, H2, H3, Hp, H4, list_eqb_refl.
    apply Nat.ltb_ge in H5. rewrite H5. cbn [orb negb].
    right. left. reflexivity.
  - unfold handleLogin. rewrite (js_trim_spaces pw H6), orb_true_r. reflexivity.
Qed.

(** X12: the e-mail an account is signed up with is used unchanged when
    logging in: [signIn] adds no [@legalworkspace.local] to it, and
    [handleLogin] with the same typed e-mail and any non-blank password
    calls [signIn] with exactly that e-mail. *)
Theorem signup_email_used_at_login : forall name email phone pw cpw err e p n ph,
  In (CallSignUp e p n ph) (handleSignup name email phone pw cpw err) ->
  login_email e = e /\
  (forall pw' r, js_trim pw' <> [] -> In (CallSignIn e pw') (handleLogin email pw' r)).
Proof.
  intros name email phone pw cpw err e p n ph H.
  destruct (signUp_called_inv name email phone pw cpw err e p n ph H)
    as (_ & He & _ & Hat & _ & _ & -> & _).
  split.
  - unfold login_email. rewrite at_sign_eq in *.
    assert (Ht : includes [64] (js_trim email) = true).
    { apply includes_single. apply In_js_trim; [|reflexivity].
      apply includes_single. exact Hat. }
    rewrite Ht. reflexivity.
  - intros pw' r Hp. unfold handleLogin. apply js_empty_false in He, Hp.
    rewrite He, Hp. cbn [orb]. right. left. reflexivity.
Qed.

(** X13: [handleLogin] navigates only after a [signIn] without error,
    for a non-blank e-mail and password, and then to [/admin] exactly when
    the account is an admin, to [/dashboard] otherwise. *)
Theorem handleLogin_navigates : forall email pw r path,
  In (Navigate path) (handleLogin email pw r) <->
  js_trim email <> [] /\ js_trim pw <> [] /\ opt_truthy (error r) = false /\
  path = home_path (isAdmin r).
Proof.
  intros email pw r path. unfold handleLogin.
  destruct (js_empty (js_trim email)) eqn:E1.
  - apply js_empty_true in E1. cbn. split; [tauto|]. intros (H & _). contradiction.
  - destruct (js_empty (js_trim pw)) eqn:E2.
    + apply js_empty_true in E2. cbn. split; [tauto|]. intros (_ & H & _).
      contradiction.
    + apply js_empty_false in E1, E2. cbn [orb].
      destruct (error r) as [m|] eqn:Er; [destruct (js_empty m) eqn:Em|];
        cbn [opt_truthy negb]; rewrite ?Em; split.
      * intros H. drop_effects H. injection H as <-. repeat split; assumption.
      * intros (_ & _ & _ & ->). right. right. right. left. reflexivity.
      * intros H. drop_effects H.
      * intros (_ & _ & H & _). discriminate H.
      * intros H. drop_effects H. injection H as <-. repeat split; assumption.
      * intros (_ & _ & _ & ->). right. right. right. left. reflexivity.
Qed.

(** * Properties of the reply processing and the admin dashboard *)

Lemma remove_matches_fuel : forall pat, pat <> [] ->
  forall f1 f2 s, (List.length s < f1)%nat -> (List.length s < f2)%nat ->
  remove_matches f1 pat s = remove_matches f2 pat s.
Proof.
  intros pat Hp f1. induction f1 as [|f1 IH]; intros f2 s H1 H2; [lia|].
  destruct f2 as [|f2]; [lia|]. simpl.
  destruct s as [|c s]; [reflexivity|].
  assert (Hr : (List.length (skipn (List.length pat) (c :: s)) <= List.length s)%nat).
  { rewrite length_skipn. destruct pat; [contradiction|]. simpl. lia. }
  simpl in H1, H2.
  destruct (starts_with pat (c :: s)).
  - destruct (skipn (List.length pat) (c :: s)) as [|x r] eqn:E; [reflexivity|].
    simpl in Hr. destruct (x =? NL); apply IH; simpl; lia.
  - f_equal. apply IH; lia.
Qed.

Lemma remove_matches_no_tick : forall pat body rest f,
  hd_error pat = Some 96 -> ~ In 96 body -> (List.length (body ++ rest) < f)%nat ->
  remove_matches f pat (body ++ rest) =
  body ++ remove_matches (f - List.length body) pat rest.
Proof.
  intros [|t p'] body rest f Hp; [discriminate|]. injection Hp as ->.
  revert rest f. induction body as [|c body IH]; intros rest f Hb Hf.
  - simpl. rewrite Nat.sub_0_r. reflexivity.
  - destruct f as [|f]; [simpl in Hf; lia|]. cbn [app remove_matches starts_with].
    assert (Hc : (96 =? c) = false)
      by (apply Z.eqb_neq; intros E; subst c; apply Hb; left; reflexivity).
    rewrite Hc. cbn [andb]. f_equal. apply IH.
    + intros H. apply Hb. right. exact H.
    + simpl in Hf. lia.
Qed.

Lemma starts_with_self : forall p x, starts_with p (p ++ x) = true.
Proof.
  induction p as [|c p IH]; intros x; simpl; [reflexivity|].
  rewrite Z.eqb_refl. apply IH.
Qed.

Lemma skipn_self : forall (p x : list Z), skipn (List.length p) (p ++ x) = x.
Proof. induction p as [|c p IH]; intros x; simpl; [reflexivity|]. apply IH. Qed.

Lemma remove_matches_match_nl : forall pat f r, pat <> [] ->
  remove_matches (S f) pat (pat ++ NL :: r) = remove_matches f pat r.
Proof.
  intros [|c p] f r Hp; [contradiction|].
  simpl remove_matches. rewrite Z.eqb_refl, starts_with_self, skipn_self.
  reflexivity.
Qed.

Lemma fence_json_not_nil : fence_json <> [].
Proof. intros E. vm_compute in E. discriminate E. Qed.

Lemma fence_not_nil : fence <> [].
Proof. intros E. vm_compute in E. discriminate E. Qed.

Ltac len_tac :=
  repeat (first [rewrite length_app | progress cbn [List.length]]);
  repeat match goal with H : context [List.length (_ ++ _)] |- _ =>
    repeat (first [rewrite length_app in H | progress cbn [List.length] in H]) end;
  cbn [List.length] in *;
  repeat match goal with E : List.length ?x = _ |- context [List.length ?x] => rewrite E end;
  repeat match goal with E : List.length ?x = _, H : context [List.length ?x] |- _ =>
    match H with E => fail 1 | _ => rewrite E in H end end;
  lia.

Lemma strip_fences_fenced : forall body, ~ In 96 body ->
  strip_fences (fence_json ++ NL :: body ++ NL :: fence) = js_trim body /\
  strip_fences (fence ++ NL :: body ++ NL :: fence) = js_trim body.
Proof.
  intros body Hb.
  assert (Lf : List.length fence = 3%nat) by reflexivity.
  assert (Lfj : List.length fence_json = 7%nat) by reflexivity.
  assert (Hj : forall f, (List.length (body ++ NL :: fence) < f)%nat ->
    remove_matches f fence_json (body ++ NL :: fence) = body ++ NL :: fence).
  { intros f Hf. rewrite remove_matches_no_tick by (reflexivity || assumption).
    f_equal. rewrite length_app in Hf.
    rewrite (remove_matches_fuel fence_json fence_json_not_nil _ 5%nat)
      by len_tac.
    reflexivity. }
  assert (Hf : forall f, (List.length (body ++ NL :: fence) < f)%nat ->
    remove_matches f fence (body ++ NL :: fence) = body ++ [NL]).
  { intros f Hf. rewrite remove_matches_no_tick by (reflexivity || assumption).
    f_equal. rewrite length_app in Hf.
    rewrite (remove_matches_fuel fence fence_not_nil _ 5%nat) by len_tac.
    reflexivity. }
  unfold strip_fences, replace_all. split.
  - rewrite remove_matches_match_nl by exact fence_json_not_nil.
    rewrite Hj by len_tac.
    rewrite Hf by len_tac.
    apply js_trim_snoc_space. reflexivity.
  - assert (H4 : forall f X, remove_matches (S (S (S (S f)))) fence_json (fence ++ NL :: X) =
                             fence ++ NL :: remove_matches f fence_json X)
      by reflexivity.
    replace (List.length (fence ++ NL :: body ++ NL :: fence))
      with (S (S (S (S (List.length (body ++ NL :: fence)))))) by len_tac.
    rewrite H4, Hj by len_tac.
    rewrite remove_matches_match_nl by exact fence_not_nil.
    rewrite Hf by len_tac.
    apply js_trim_snoc_space. reflexivity.
Qed.

Lemma remove_matches_nil : forall f pat, remove_matches f pat [] = [].
Proof. intros [|f] pat; reflexivity. Qed.

Lemma strip_fences_plain : forall body, ~ In 96 body ->
  strip_fences body = js_trim body.
Proof.
  intros body Hb. unfold strip_fences, replace_all.
  assert (G : forall pat f, hd_error pat = Some 96 -> (List.length body < f)%nat ->
    remove_matches f pat body = body).
  { intros pat f Hp Hf. rewrite <- (app_nil_r body) at 1.
    rewrite remove_matches_no_tick; [| exact Hp | exact Hb | rewrite app_nil_r; exact Hf].
    rewrite remove_matches_nil, app_nil_r. reflexivity. }
  rewrite (G fence_json), (G fence); (reflexivity || lia).
Qed.

Section ReplyFacts.
Context {NS : NumberSemantics}.

Lemma reply_content_string : forall c,
  reply_content (JObj [(txt "choices", JArr [JObj [(txt "message",
    JObj [(txt "content", JStr c)])]])]) = Some c.
Proof. intros [|z c]; reflexivity. Qed.

(** X14: [analyzeCase] reads the same analysis from a reply whose content
    is a JSON text wrapped in a [```json] fence, wrapped in a bare [```]
    fence, or not wrapped at all: in each case it parses the trimmed JSON
    text, provided that text contains no backquote. *)
Theorem analysis_of_fenced_reply : forall body, ~ In 96 body ->
  let reply c := JObj [(txt "choices", JArr [JObj [(txt "message",
    JObj [(txt "content", JStr c)])]])] in
  analysis_of_reply (reply (fence_json ++ NL :: body ++ NL :: fence)) = json_parse (js_trim body) /\
  analysis_of_reply (reply (fence ++ NL :: body ++ NL :: fence)) = json_parse (js_trim body) /\
  analysis_of_reply (reply body) = json_parse (js_trim body).
Proof.
  intros body Hb reply. unfold analysis_of_reply, reply.
  rewrite !reply_content_string.
  destruct (strip_fences_fenced body Hb) as [E1 E2].
  rewrite E1, E2, strip_fences_plain by exact Hb. auto.
Qed.
End ReplyFacts.

(** X15: [fetchUsers] lists exactly the profiles whose [user_id] is not
    among the admin ids; when the role query yields no data, it lists every
    profile, in the order of the query. *)
Theorem fetchUsers_hides_admins : forall profiles ids,
  (exists us, fetchUsers (Some profiles) (Some ids) = Some us /\
     forall u, In u us <-> In u profiles /\ ~ In (row_user_id u) ids) /\
  fetchUsers (Some profiles) None = Some profiles.
Proof.
  intros profiles ids. split.
  - eexists. split; [reflexivity|]. intros u.
    rewrite filter_In, negb_true_iff. split.
    + intros [Hu Hn]. split; [exact Hu|]. intros Hi.
      assert (existsb (list_eqb (row_user_id u)) ids = true) as E.
      { apply existsb_exists. exists (row_user_id u). split; [exact Hi|apply list_eqb_refl]. }
      congruence.
    + intros [Hu Hn]. split; [exact Hu|].
      destruct (existsb (list_eqb (row_user_id u)) ids) eqn:E; [|reflexivity].
      apply existsb_exists in E as [x [Hx Ex]]. apply list_eqb_eq in Ex. subst x.
      contradiction.
  - simpl. f_equal. induction profiles as [|p ps IH]; simpl; [reflexivity|].
    rewrite IH. reflexivity.
Qed.

Lemma in_userCases : forall u cs c, In c cs -> snd c = u ->
  existsb (list_eqb (fst c)) (map fst (filter (fun r => list_eqb (snd r) u) cs)) = true.
Proof.
  intros u cs c Hc Hs. apply existsb_exists. exists (fst c). split; [|apply list_eqb_refl].
  apply in_map. apply filter_In. split; [exact Hc|]. rewrite Hs. apply list_eqb_refl.
Qed.

(** X16: [deleteUser] leaves no general message and no case of the user,
    removes only messages of the user's cases, and leaves no message
    without its case when there was none before. *)
Theorem deleteUser_no_orphans : forall u d, messages_have_cases d ->
  messages_have_cases (deleteUser u d) /\
  (forall r, In r (general_rows (deleteUser u d)) -> fst r <> u) /\
  (forall c, In c (case_rows (deleteUser u d)) -> snd c <> u) /\
  (forall m, In m (message_rows d) -> ~ In m (message_rows (deleteUser u d)) ->
     exists c, In c (case_rows d) /\ fst c = fst m /\ snd c = u).
Proof.
  intros u [gs cs ms] Hd. unfold messages_have_cases in *. cbn [message_rows case_rows] in Hd.
  unfold deleteUser. cbn [general_rows case_rows message_rows].
  set (uc := map fst (filter (fun r => list_eqb (snd r) u) cs)).
  assert (Hg : forall r, In r (filter (fun r => negb (list_eqb (fst r) u)) gs) -> fst r <> u).
  { intros r Hr E. apply filter_In in Hr as [_ Hr]. rewrite E, list_eqb_refl in Hr. discriminate. }
  destruct (negb (Nat.eqb (List.length uc) 0)) eqn:Hn; cbn [general_rows case_rows message_rows].
  - split; [|split; [exact Hg|split]].
    + intros m Hm. apply filter_In in Hm as [Hm Hx].
      destruct (Hd m Hm) as [c [Hc Hf]]. exists c. split; [|exact Hf].
      apply filter_In. split; [exact Hc|].
      destruct (list_eqb (snd c) u) eqn:E; [|reflexivity].
      apply list_eqb_eq in E. pose proof (in_userCases u cs c Hc E) as Hi. fold uc in Hi.
      rewrite <- Hf, Hi in Hx. discriminate.
    + intros c Hc E. apply filter_In in Hc as [_ Hc]. rewrite E, list_eqb_refl in Hc. discriminate.
    + intros m Hm Hnot.
      destruct (existsb (list_eqb (fst m)) uc) eqn:E.
      * apply existsb_exists in E as [x [Hx Ex]]. apply list_eqb_eq in Ex. subst x.
        unfold uc in Hx. apply in_map_iff in Hx as [c [Hf Hc]].
        apply filter_In in Hc as [Hc Ho]. apply list_eqb_eq in Ho.
        exists c. auto.
      * exfalso. apply Hnot. apply filter_In. rewrite E. auto.
  - split; [exact Hd|split; [exact Hg|split]].
    + intros c Hc E.
      assert (In (fst c) uc) as Hi.
      { unfold uc. apply in_map. apply filter_In. rewrite E, list_eqb_refl. auto. }
      destruct uc; [contradiction|discriminate].
    + intros m Hm Hnot. contradiction.
Qed.

Lemma set_field_twice : forall f b b' u, set_field f b (set_field f b' u) = set_field f b u.
Proof. intros [|] b b' [] ; reflexivity. Qed.

Lemma set_field_get : forall f u, set_field f (get_field f u) u = u.
Proof. intros [|] []; reflexivity. Qed.

Lemma row_user_id_set_field : forall f b u, row_user_id (set_field f b u) = row_user_id u.
Proof. intros [|] b []; reflexivity. Qed.

(** X17: toggling a field of a user twice, where the list showed the
    field's current value [current] for that user, restores the user list
    as it was. *)
Theorem toggleField_round_trip : forall userId field current users,
  (forall u, In u users -> row_user_id u = userId -> get_field field u = current) ->
  fst (toggleField userId field (negb current) None
         (fst (toggleField userId field current None users))) = users.
Proof.
  intros userId field current users H. cbn [toggleField fst].
  rewrite map_map.
  induction users as [|u us IH]; [reflexivity|]. cbn [map].
  rewrite IH by (intros v Hv; apply H; right; exact Hv). f_equal.
  destruct (list_eqb (row_user_id u) userId) eqn:E.
  - rewrite row_user_id_set_field, E, set_field_twice, negb_involutive.
    apply list_eqb_eq in E. rewrite <- (H u (or_introl eq_refl) E). apply set_field_get.
  - rewrite E. reflexivity.
Qed.

(** * Properties of code verification and saving a chat *)

(** X18: [handleVerifyOtp] calls [verifyOtp] exactly when the code has 6
    code units, and then with the pending e-mail, the code and the pending
    password. *)
Theorem handleVerifyOtp_calls : forall pe pp otp r e t p,
  In (CallVerifyOtp e t p) (handleVerifyOtp pe pp otp r) <->
  List.length otp = 6%nat /\ e = pe /\ t = otp /\ p = pp.
Proof.
  intros pe pp otp r e t p. unfold handleVerifyOtp.
  destruct (Nat.eqb_spec (List.length otp) 6) as [Hl|Hl]; cbn [negb].
  - split.
    + intros H. apply in_app_or in H as [H|H].
      * destruct H as [H|[H|[H|[]]]]; try discriminate. injection H as -> -> ->. auto.
      * destruct (error r) as [s|]; [destruct (js_empty s)|];
          destruct H as [H|[H|[]]] || destruct H as [H|[]]; discriminate.
    + intros [_ [-> [-> ->]]]. apply in_or_app. left. right. left. reflexivity.
  - split; [intros []|intros [H _]; contradiction].
Qed.

(** X19: after a successful [handleSignup], the pending e-mail and
    password it stores are those [signUp] got, and a 6-unit code verifies
    with exactly those. *)
Theorem signup_then_verify : forall name email phone pw cpw otp r pe pp,
  In (SetPending pe pp) (handleSignup name email phone pw cpw None) ->
  List.length otp = 6%nat ->
  In (CallSignUp pe pp (js_trim name) (js_trim phone)) (handleSignup name email phone pw cpw None) /\
  In (CallVerifyOtp pe otp pp) (handleVerifyOtp pe pp otp r).
Proof.
  intros name email phone pw cpw otp r pe pp H Hl. split.
  - unfold handleSignup in *.
    destruct (_ || _ || _ || _ || _); [destruct H as [H|[]]; discriminate|].
    destruct (negb (includes at_sign email)); [destruct H as [H|[]]; discriminate|].
    destruct (negb (list_eqb pw cpw)); [destruct H as [H|[]]; discriminate|].
    destruct (List.length pw <? 6)%nat; [destruct H as [H|[]]; discriminate|].
    cbn [opt_truthy] in *. apply in_app_or in H as [H|H].
    + destruct H as [H|[H|[H|[]]]]; discriminate.
    + destruct H as [H|H]; [|destruct H as [H|[H|[]]]; discriminate].
      injection H as -> ->. right. left. reflexivity.
  - apply handleVerifyOtp_calls. auto.
Qed.

(** X20: [handleSaveAsCase] deletes the user's general messages only when
    the chat is not empty and the new case row came back, and right after
    inserting every general message, in order with its role and content,
    under the new case's id. *)
Theorem handleSaveAsCase_copies_before_clearing : forall uid t gms nc u,
  In (SaveDeleteGeneral u) (handleSaveAsCase uid t gms nc) ->
  u = uid /\ gms <> [] /\ exists c rows pre post,
    nc = Some c /\
    handleSaveAsCase uid t gms nc = pre ++ SaveInsertMessages rows :: SaveDeleteGeneral u :: post /\
    map (fun x => fst (fst x)) rows = repeat (case_id c) (List.length gms) /\
    map (fun x => (snd (fst x), snd x)) rows = map (fun m => (role m, content m)) gms.
Proof.
  intros uid t gms nc u H. unfold handleSaveAsCase in *.
  destruct (js_empty (js_trim t) || Nat.eqb (List.length gms) 0) eqn:G; [destruct H|].
  apply orb_false_iff in G as [_ G].
  destruct nc as [c|]; [|destruct H as [H|[]]; discriminate].
  destruct H as [H|[H|[H|H]]]; try discriminate.
  - injection H as E. subst u. split; [reflexivity|split].
    + intros ->. discriminate.
    + do 2 eexists. exists [SaveInsertCase uid (js_trim t)]. eexists. split; [reflexivity|split].
      * reflexivity.
      * rewrite !map_map. cbn [fst snd]. split; [|reflexivity].
        clear. induction gms as [|m ms IH]; [reflexivity|]. cbn. f_equal. exact IH.
  - repeat (destruct H as [H|H]; [discriminate|]). destruct H.
Qed.

(** * Witnesses of the properties *)

Ltac ne_tac := let E := fresh in intro E; vm_compute in E; discriminate E.
Ltac in_tac := vm_compute; repeat (first [left; reflexivity | right]).
Ltac notin_tac := let H := fresh in
  intro H; vm_compute in H; repeat (destruct H as [H|H]; [discriminate H|]); destruct H.

Lemma handleCaseSend_reply_witness :
  js_trim (txt "hi") <> [] /\ txt "c1" <> [] /\ access_gate None = None /\
  streamChat (mk_response true (Some [hello_world_stream])) = ([txt "Hello"; txt "Hello world"], Returned (txt "Hello world")) /\
  (let tr := handleCaseSend None (txt "hi") false (Some (txt "c1")) [] (mk_response true (Some [hello_world_stream])) in
   last_messages tr None =
     Some (mk_msg None role_user (js_trim (txt "hi")) ::
           [mk_msg None role_assistant (txt "Hello world")]) /\
   (In (InsertMessage (txt "c1") role_assistant (txt "Hello world")) tr <->
    txt "Hello world" <> []) /\
   In (TouchCase (txt "c1")) tr).
Proof.
  split; [ne_tac|split; [ne_tac|split; [reflexivity|split; [vm_compute; reflexivity|]]]].
  apply (handleCaseSend_reply None (txt "hi") (txt "c1") [] (mk_response true (Some [hello_world_stream]))
           [txt "Hello"; txt "Hello world"] (txt "Hello world"));
    [ne_tac|ne_tac|reflexivity|vm_compute; reflexivity].
Defined.

Lemma handleCaseSend_guard_witness :
  In (ChatRequest (chat_history [mk_msg None role_user (js_trim (txt "hi"))]))
     (handleCaseSend None (txt "hi") false (Some (txt "c1")) []
        (mk_response true (Some [hello_world_stream]))) /\
  (js_trim (txt "hi") <> [] /\ false = false /\ opt_truthy (Some (txt "c1")) = true /\
   (forall p, (None : option profile) = Some p ->
              subscription_active p = true /\ access_enabled p = true)).
Proof.
  assert (H : In (ChatRequest (chat_history [mk_msg None role_user (js_trim (txt "hi"))]))
     (handleCaseSend None (txt "hi") false (Some (txt "c1")) []
        (mk_response true (Some [hello_world_stream])))) by in_tac.
  split; [exact H|].
  exact (handleCaseSend_guard None (txt "hi") false (Some (txt "c1")) []
           (mk_response true (Some [hello_world_stream])) _ H I).
Defined.

Lemma handleCaseSend_transport_failure_witness :
  js_trim (txt "hi") <> [] /\ txt "c1" <> [] /\ access_gate None = None /\
  (resp_ok (mk_response false None) = false \/ resp_body (mk_response false None) = None) /\
  handleCaseSend None (txt "hi") false (Some (txt "c1")) [] (mk_response false None) =
  [RefreshProfile; SetMessages [mk_msg None role_user (js_trim (txt "hi"))]; SetInput [];
   SetSending true; InsertMessage (txt "c1") role_user (js_trim (txt "hi"));
   ChatRequest (chat_history [mk_msg None role_user (js_trim (txt "hi"))]);
   ConsoleError; Toast (txt "Error") (txt "Failed to get AI response");
   SetSending false].
Proof.
  split; [ne_tac|split; [ne_tac|split; [reflexivity|split; [left; reflexivity|]]]].
  apply (handleCaseSend_transport_failure None (txt "hi") (txt "c1") [] (mk_response false None));
    [ne_tac|ne_tac|reflexivity|left; reflexivity].
Defined.

Lemma handleExplainInDetail_history_witness :
  nth_error [mk_msg None role_assistant (txt "Law")] 0 = Some (mk_msg None role_assistant (txt "Law")) /\
  content (mk_msg None role_assistant (txt "Law")) <> [] /\ access_gate None = None /\
  streamChat (mk_response true (Some [hello_world_stream])) =
    ([txt "Hello"; txt "Hello world"], Returned (txt "Hello world")) /\
  (let detailMsg := mk_msg None role_user (txt "Explain in Detail") in
   let tr := handleExplainInDetail 0 CaseChat [mk_msg None role_assistant (txt "Law")] []
               (Some (txt "c1")) (txt "u1") None (mk_response true (Some [hello_world_stream])) in
   (forall h, In (ChatRequest h) tr <->
      h = chat_history (firstn 1 [mk_msg None role_assistant (txt "Law")] ++ [detailMsg])) /\
   last_messages tr None =
     Some ([mk_msg None role_assistant (txt "Law")] ++ detailMsg ::
           [mk_msg None role_assistant (txt "Hello world")])).
Proof.
  split; [reflexivity|split; [ne_tac|split; [reflexivity|split; [vm_compute; reflexivity|]]]].
  apply (handleExplainInDetail_history 0 CaseChat [mk_msg None role_assistant (txt "Law")] []
           (Some (txt "c1")) (txt "u1") None (mk_response true (Some [hello_world_stream]))
           (mk_msg None role_assistant (txt "Law")) [txt "Hello"; txt "Hello world"]
           (txt "Hello world"));
    [reflexivity|ne_tac|reflexivity|vm_compute; reflexivity].
Defined.

Lemma sidebar_keeps_active_listed_witness :
  let st := mk_dash [mk_case (txt "c1") (txt "Theft") (txt "t1");
                     mk_case (txt "c2") (txt "Fraud") (txt "t2")]
                    (Some (txt "c1")) ViewCaseDetail [] None None [] in
  let p := mk_pending (txt "c2") (Some (txt "c1")) in
  let s' := mk_sidebar (deleteCase_resume p st) [] in
  active_listed st /\
  clos_refl_trans_1n sidebar
    (fun s s'' => sidebar_step s s'' /\ ~ reopens_pending s s'') (mk_sidebar st []) s' /\
  active_listed (dash s').
Proof.
  intros st p s'.
  assert (H0 : active_listed st).
  { exists (mk_case (txt "c1") (txt "Theft") (txt "t1")). split; [left; reflexivity|reflexivity]. }
  assert (H1 : clos_refl_trans_1n sidebar
    (fun s s'' => sidebar_step s s'' /\ ~ reopens_pending s s'') (mk_sidebar st []) s').
  { apply (rt1n_trans _ _ _ (mk_sidebar st [p])).
    - split; [apply (sb_delete_call (txt "c2") st [])|].
      intros (q & Hq & E & N). apply N. exact E.
    - apply (rt1n_trans _ _ _ s'); [|apply rt1n_refl]. split; [apply (sb_delete_return [] p [])|].
      intros (q & [<-|[]] & E & N). vm_compute in E. discriminate E. }
  split; [exact H0|split; [exact H1|]].
  exact (sidebar_keeps_active_listed st s' H0 H1).
Defined.

Lemma deleteCase_open_race_witness :
  let d := mk_dash [mk_case (txt "c1") (txt "Theft") (txt "t1");
                    mk_case (txt "c2") (txt "Fraud") (txt "t2")]
                   (Some (txt "c1")) ViewCaseDetail [] None None [] in
  let c := mk_case (txt "c2") (txt "Fraud") (txt "t2") in
  In c (cases d) /\ activeCase d <> Some (case_id c) /\
  let s' := mk_sidebar (deleteCase_resume (mk_pending (case_id c) (activeCase d))
                          (openCase_start (case_id c) d)) [] in
  clos_refl_trans_1n sidebar sidebar_step (mk_sidebar d []) s' /\
  activeCase (dash s') = Some (case_id c) /\ ~ active_listed (dash s').
Proof.
  intros d c.
  assert (Hc : In c (cases d)) by (right; left; reflexivity).
  assert (Ha : activeCase d <> Some (case_id c)) by (intros E; vm_compute in E; discriminate E).
  split; [exact Hc|split; [exact Ha|]].
  exact (deleteCase_open_race d c Hc Ha).
Defined.

Lemma blank_password_signup_not_login_witness :
  js_trim (txt "Ann") <> [] /\ js_trim (txt "ann@law.in") <> [] /\ js_trim (txt "98") <> [] /\
  includes at_sign (txt "ann@law.in") = true /\ (6 <= List.length (txt "      "))%nat /\
  forallb js_is_space (txt "      ") = true /\
  In (CallSignUp (js_trim (txt "ann@law.in")) (txt "      ") (js_trim (txt "Ann")) (js_trim (txt "98")))
     (handleSignup (txt "Ann") (txt "ann@law.in") (txt "98") (txt "      ") (txt "      ") None) /\
  handleLogin (txt "ann@law.in") (txt "      ") (mk_auth_result None false) = [].
Proof.
  split; [ne_tac|split; [ne_tac|split; [ne_tac|split; [reflexivity|split; [vm_compute; lia|
    split; [reflexivity|]]]]]].
  apply (blank_password_signup_not_login (txt "Ann") (txt "ann@law.in") (txt "98") (txt "      ")
           None (mk_auth_result None false));
    [ne_tac|ne_tac|ne_tac|reflexivity|vm_compute; lia|reflexivity].
Defined.

Lemma signup_email_used_at_login_witness :
  In (CallSignUp (txt "ann@law.in") (txt "secret") (txt "Ann") (txt "98"))
     (handleSignup (txt "Ann") (txt " ann@law.in ") (txt "98") (txt "secret") (txt "secret") None) /\
  login_email (txt "ann@law.in") = txt "ann@law.in" /\
  (forall pw' r, js_trim pw' <> [] ->
     In (CallSignIn (txt "ann@law.in") pw') (handleLogin (txt " ann@law.in ") pw' r)).
Proof.
  assert (H : In (CallSignUp (txt "ann@law.in") (txt "secret") (txt "Ann") (txt "98"))
     (handleSignup (txt "Ann") (txt " ann@law.in ") (txt "98") (txt "secret") (txt "secret") None))
    by in_tac.
  split; [exact H|].
  exact (signup_email_used_at_login _ _ _ _ _ _ _ _ _ _ H).
Defined.

Lemma analysis_of_fenced_reply_witness :
  ~ In 96 (txt "{}") /\
  (let reply c := JObj [(txt "choices", JArr [JObj [(txt "message",
     JObj [(txt "content", JStr c)])]])] in
   analysis_of_reply (reply (fence_json ++ NL :: txt "{}" ++ NL :: fence)) =
     json_parse (js_trim (txt "{}")) /\
   analysis_of_reply (reply (fence ++ NL :: txt "{}" ++ NL :: fence)) =
     json_parse (js_trim (txt "{}")) /\
   analysis_of_reply (reply (txt "{}")) = json_parse (js_trim (txt "{}"))).
Proof.
  assert (H : ~ In 96 (txt "{}")) by notin_tac.
  split; [exact H|].
  exact (@analysis_of_fenced_reply lexeme_numbers (txt "{}") H).
Defined.

Lemma deleteUser_no_orphans_witness :
  let m := mk_msg None role_user (txt "hi") in
  let d := mk_db [(txt "u1", m)] [(txt "c1", txt "u1"); (txt "c2", txt "u2")]
                 [(txt "c1", m); (txt "c2", m)] in
  messages_have_cases d /\
  messages_have_cases (deleteUser (txt "u1") d) /\
  (forall r, In r (general_rows (deleteUser (txt "u1") d)) -> fst r <> txt "u1") /\
  (forall c, In c (case_rows (deleteUser (txt "u1") d)) -> snd c <> txt "u1") /\
  (forall m', In m' (message_rows d) -> ~ In m' (message_rows (deleteUser (txt "u1") d)) ->
     exists c, In c (case_rows d) /\ fst c = fst m' /\ snd c = txt "u1").
Proof.
  intros m d.
  assert (H : messages_have_cases d).
  { intros x Hx. destruct Hx as [<-|[<-|[]]].
    - exists (txt "c1", txt "u1"). split; [left; reflexivity|reflexivity].
    - exists (txt "c2", txt "u2"). split; [right; left; reflexivity|reflexivity]. }
  split; [exact H|].
  exact (deleteUser_no_orphans (txt "u1") d H).
Defined.

Lemma toggleField_round_trip_witness :
  let users := [mk_user_row (txt "u1") (txt "Ann") (txt "ann") None true true (txt "t1");
                mk_user_row (txt "u2") (txt "Bo") (txt "bo") None false true (txt "t2")] in
  (forall u, In u users -> row_user_id u = txt "u1" -> get_field FieldAccess u = true) /\
  fst (toggleField (txt "u1") FieldAccess (negb true) None
         (fst (toggleField (txt "u1") FieldAccess true None users))) = users.
Proof.
  intros users.
  assert (H : forall u, In u users -> row_user_id u = txt "u1" -> get_field FieldAccess u = true).
  { intros u Hu E. destruct Hu as [<-|[<-|[]]]; [reflexivity|vm_compute in E; discriminate E]. }
  split; [exact H|].
  exact (toggleField_round_trip (txt "u1") FieldAccess true users H).
Defined.

Lemma signup_then_verify_witness :
  In (SetPending (txt "ann@law.in") (txt "secret"))
     (handleSignup (txt "Ann") (txt "ann@law.in") (txt "98") (txt "secret") (txt "secret") None) /\
  List.length (txt "123456") = 6%nat /\
  In (CallSignUp (txt "ann@law.in") (txt "secret") (js_trim (txt "Ann")) (js_trim (txt "98")))
     (handleSignup (txt "Ann") (txt "ann@law.in") (txt "98") (txt "secret") (txt "secret") None) /\
  In (CallVerifyOtp (txt "ann@law.in") (txt "123456") (txt "secret"))
     (handleVerifyOtp (txt "ann@law.in") (txt "secret") (txt "123456") (mk_auth_result None false)).
Proof.
  assert (H : In (SetPending (txt "ann@law.in") (txt "secret"))
     (handleSignup (txt "Ann") (txt "ann@law.in") (txt "98") (txt "secret") (txt "secret") None))
    by in_tac.
  assert (L : List.length (txt "123456") = 6%nat) by reflexivity.
  split; [exact H|split; [exact L|]].
  exact (signup_then_verify _ _ _ _ _ _ (mk_auth_result None false) _ _ H L).
Defined.

Lemma handleSaveAsCase_copies_before_clearing_witness :
  let gms := [mk_msg None role_user (txt "hi"); mk_msg None role_assistant (txt "Hello")] in
  let nc := mk_case (txt "c9") (txt "Lease") (txt "t9") in
  In (SaveDeleteGeneral (txt "u1")) (handleSaveAsCase (txt "u1") (txt " Lease ") gms (Some nc)) /\
  (txt "u1" = txt "u1" /\ gms <> [] /\ exists c rows pre post,
    Some nc = Some c /\
    handleSaveAsCase (txt "u1") (txt " Lease ") gms (Some nc) =
      pre ++ SaveInsertMessages rows :: SaveDeleteGeneral (txt "u1") :: post /\
    map (fun x => fst (fst x)) rows = repeat (case_id c) (List.length gms) /\
    map (fun x => (snd (fst x), snd x)) rows = map (fun m => (role m, content m)) gms).
Proof.
  intros gms nc.
  assert (H : In (SaveDeleteGeneral (txt "u1"))
                 (handleSaveAsCase (txt "u1") (txt " Lease ") gms (Some nc))) by in_tac.
  split; [exact H|].
  exact (handleSaveAsCase_copies_before_clearing _ _ _ _ _ H).
Defined.
